(** * Nahara colour core: curves, RGB matrices, ICC binary reader

    A shallow embedding of the TypeScript sources [curve.ts], [math.ts],
    [rgb.ts], [icc/datatype.ts], [icc/header.ts], [icc/tag.ts] and
    [icc/profile.ts], followed by the properties established for them.

    Numbers.  A JavaScript [number] is modelled according to its use:
    - integers that go through the bitwise operators are [Z], with the
      conversion to a 32-bit signed integer written out ([to_int32]);
    - a [BigInt] is [Z] as it is; [BigInt(undefined)] throws and
      [Number(bigint)] rounds to the 53 significant bits of a double;
    - values stored in or read from a buffer by the fixed-point codec are
      exact rationals [Q] (every such value is a dyadic rational that a
      double represents exactly), so the codec evaluates;
    - colour arithmetic (matrices, curves) is over the reals [R]: the
      properties proved about it are statements of exact arithmetic.  A
      result that JavaScript would report as [NaN] or [Infinity] has no
      counterpart in [R]; the definitions agree with the code wherever
      the code's result is a finite number, and an [undefined] coming out
      of an array read is kept explicit as [None]. *)

From Stdlib Require Import ZArith QArith Qround Reals Lra Lia.
From Stdlib Require Import Strings.Byte Sorting.Sorted.
From stdpp Require Import base option list strings gmap.
From Equations Require Import Equations.

#[local] Open Scope Z_scope.

(* ===================================================================== *)
(** * JavaScript primitives                                                *)
(* ===================================================================== *)

Module Js.

(** Errors the code can raise: [new Error(message)], the [TypeError] of a
    property read on [undefined] (carrying the property that was read),
    the [TypeError] of [BigInt(undefined)] ("Cannot convert undefined to a
    BigInt") and the [RangeError] of an invalid typed-array length. *)
Inductive JsError : Type :=
| Error (message : string)
| TypeError (property : string)
| TypeErrorBigInt
| RangeError.

(** A completion: the call returns a value or throws. *)
Definition completion (A : Type) : Type := JsError + A.

Definition ret {A} (a : A) : completion A := inr a.
Definition throw {A} (e : JsError) : completion A := inl e.
Definition bind {A B} (c : completion A) (k : A -> completion B) : completion B :=
  match c with
  | inl e => inl e
  | inr a => k a
  end.

(** [ToInt32]: wrap an integer into [-2^31, 2^31). *)
Definition to_int32 (z : Z) : Z := (z + 2 ^ 31) mod 2 ^ 32 - 2 ^ 31.

(** [ToUint8], the conversion applied by a store into a [Uint8Array]. *)
Definition to_uint8 (z : Z) : Z := z mod 256.

(** The bitwise operators: both operands go through [ToInt32], the shift
    count is taken modulo 32, the result is a 32-bit signed integer. *)
Definition and (a b : Z) : Z := Z.land (to_int32 a) (to_int32 b).
Definition or (a b : Z) : Z := Z.lor (to_int32 a) (to_int32 b).
Definition not (a : Z) : Z := Z.lnot (to_int32 a).
Definition shl (a n : Z) : Z := to_int32 (Z.shiftl (to_int32 a) (n mod 32)).
Definition shr (a n : Z) : Z := Z.shiftr (to_int32 a) (n mod 32).

(** An operand that may be [undefined]: [ToInt32(undefined)] is 0. *)
Definition int_of (v : option Z) : Z := default 0 v.

(** The value of a completion that returns. *)
Definition returned {A} (c : completion A)
  : (if c is inr _ then True else False) -> A :=
  match c with
  | inr a => fun _ => a
  | inl _ => fun H => match H with end
  end.

(** [BigInt(v)] on an integer or [undefined]: [undefined] throws. *)
Definition BigInt (v : option Z) : completion Z :=
  match v with
  | Some n => ret n
  | None => throw TypeErrorBigInt
  end.

(** [Number(n)] on a [BigInt]: the nearest double, ties to the even
    significand.  A double holds 53 significant bits, so an integer of
    magnitude below 2^53 is kept and a larger one loses its low bits.
    (No overflow below 2^1024.) *)
Definition Number (n : Z) : Z :=
  let a := Z.abs n in
  let e := Z.log2 a - 52 in
  if e <=? 0 then n
  else
    let q := Z.shiftr a e in
    let r := Z.land a (Z.ones e) in
    let half := Z.shiftl 1 (e - 1) in
    let q' := if r <? half then q
              else if half <? r then q + 1
              else if Z.even q then q else q + 1 in
    Z.sgn n * Z.shiftl q' e.

End Js.

Notation "'try!' x <- c ; k" := (Js.bind c (fun x => k))
  (at level 10, x name, c at level 100, k at level 200).

(* ===================================================================== *)
(** * icc/datatype.ts: the binary field codec                              *)
(* ===================================================================== *)

Module Datatype.
Import Js.

(** A [Uint8Array]. *)
Abbreviation Uint8Array := (list byte).

Definition byte_to_Z (b : byte) : Z := Z.of_N (Byte.to_N b).
Definition byte_of_Z (z : Z) : byte :=
  default x00 (Byte.of_N (Z.to_N (to_uint8 z))).

(** [buffer[i]]: [undefined] outside the array. *)
Definition read (buffer : Uint8Array) (i : Z) : option Z :=
  if i <? 0 then None else byte_to_Z <$> buffer !! Z.to_nat i.

(** [buffer[i] = v]: the value is reduced modulo 256; a store outside the
    array is ignored. *)
Definition write (buffer : Uint8Array) (i : Z) (v : Z) : Uint8Array :=
  if i <? 0 then buffer else <[Z.to_nat i := byte_of_Z v]> buffer.

Definition getUint16 (buffer : Uint8Array) (offset : Z) : Z :=
  or (shl (int_of (read buffer (offset + 0))) 8)
     (int_of (read buffer (offset + 1))).

Definition setUint16 (buffer : Uint8Array) (value : Z) (offset : Z) : Uint8Array :=
  let buffer := write buffer (offset + 0) (shr (and value 0xFF00) 8) in
  write buffer (offset + 1) (and value 0x00FF).

Definition getUint32 (buffer : Uint8Array) (offset : Z) : Z :=
  or (or (or (shl (int_of (read buffer (offset + 0))) 24)
             (shl (int_of (read buffer (offset + 1))) 16))
         (shl (int_of (read buffer (offset + 2))) 8))
     (int_of (read buffer (offset + 3))).

Definition setUint32 (buffer : Uint8Array) (value : Z) (offset : Z) : Uint8Array :=
  let buffer := write buffer (offset + 0) (shr (and value 0xFF000000) 24) in
  let buffer := write buffer (offset + 1) (shr (and value 0x00FF0000) 16) in
  let buffer := write buffer (offset + 2) (shr (and value 0x0000FF00) 8) in
  write buffer (offset + 3) (and value 0x000000FF).

(** [getUint64] works on [BigInt]: no wrap-around.  [BigInt(buffer[i])]
    throws when the byte lies outside the buffer; the eight conversions
    run in the order of the operands. *)
Definition getUint64 (buffer : Uint8Array) (offset : Z) : completion Z :=
  try! b0 <- BigInt (read buffer (offset + 0));
  try! b1 <- BigInt (read buffer (offset + 1));
  try! b2 <- BigInt (read buffer (offset + 2));
  try! b3 <- BigInt (read buffer (offset + 3));
  try! b4 <- BigInt (read buffer (offset + 4));
  try! b5 <- BigInt (read buffer (offset + 5));
  try! b6 <- BigInt (read buffer (offset + 6));
  try! b7 <- BigInt (read buffer (offset + 7));
  ret (Z.lor (Z.lor (Z.lor (Z.lor (Z.lor (Z.lor (Z.lor (Z.lor 0
    (Z.shiftl b0 56)) (Z.shiftl b1 48)) (Z.shiftl b2 40))
    (Z.shiftl b3 32)) (Z.shiftl b4 24)) (Z.shiftl b5 16))
    (Z.shiftl b6 8)) b7).

Definition getS15Fixed16 (buffer : Uint8Array) (offset : Z) : Q :=
  let raw := getUint32 buffer offset in
  let neg := negb (and raw 0x80000000 =? 0) in
  let int := shr (and raw 0x7FFF0000) 16 in
  let frac := and raw 0x0000FFFF in
  (inject_Z (if neg then not (and (not int) 0x7FFF) else int)
   + inject_Z frac / inject_Z 0x10000)%Q.

Definition setS15Fixed16 (buffer : Uint8Array) (value : Q) (offset : Z) : Uint8Array :=
  let sint := Qfloor value in
  let frac := Qfloor ((value - inject_Z sint) * inject_Z 0x10000)%Q in
  let raw := or (shl (and sint 0xFFFF) 16) frac in
  setUint32 buffer raw offset.

Definition getU16Fixed16 (buffer : Uint8Array) (offset : Z) : Q :=
  let raw := getUint32 buffer offset in
  let int := shr (and raw 0xFFFF0000) 16 in
  let frac := and raw 0x0000FFFF in
  (inject_Z int + inject_Z frac / inject_Z 0x10000)%Q.

(** The arguments handed to [new Date(year, month - 1, day, hours,
    minutes, seconds)]. *)
Record Date : Type := mkDate {
  year : Z; monthIndex : Z; day : Z; hours : Z; minutes : Z; seconds : Z
}.

Definition getDatetime (buffer : Uint8Array) (offset : Z) : Date :=
  let year := getUint16 buffer (offset + 0) in
  let month := getUint16 buffer (offset + 2) in
  let day := getUint16 buffer (offset + 4) in
  let hours := getUint16 buffer (offset + 6) in
  let minutes := getUint16 buffer (offset + 8) in
  let seconds := getUint16 buffer (offset + 10) in
  mkDate year (month - 1) day hours minutes seconds.

(** icc/types.ts *)
Record Xyz : Type := mkXyz { x : Q; y : Q; z : Q }.

Definition getXyz (buffer : Uint8Array) (offset : Z) : Xyz :=
  let x := getS15Fixed16 buffer (offset + 0) in
  let y := getS15Fixed16 buffer (offset + 4) in
  let z := getS15Fixed16 buffer (offset + 8) in
  mkXyz x y z.

Definition setXyz (buffer : Uint8Array) (value : Xyz) (offset : Z) : Uint8Array :=
  let buffer := setS15Fixed16 buffer (x value) (offset + 0) in
  let buffer := setS15Fixed16 buffer (y value) (offset + 4) in
  setS15Fixed16 buffer (z value) (offset + 8).

(** [buffer.subarray(begin, end)]: a negative index counts from the end,
    both indices are clamped to the array. *)
Definition subarray (buffer : Uint8Array) (begin end_ : Z) : Uint8Array :=
  let len := Z.of_nat (length buffer) in
  let clampIndex (i : Z) := if i <? 0 then Z.max (len + i) 0 else Z.min i len in
  let b := clampIndex begin in
  let e := clampIndex end_ in
  take (Z.to_nat (e - b)) (drop (Z.to_nat b) buffer).

(** [String.fromCharCode(...bytes)]. *)
Definition fromCharCode (bytes : list byte) : string :=
  String.string_of_list_ascii (map Ascii.ascii_of_byte bytes).

Definition getSignature (buffer : Uint8Array) (offset : Z) : string :=
  fromCharCode (subarray buffer offset (offset + 4)).

(** [setUint64] works on [BigInt]; each [Number(...)] is a byte value. *)
Definition setUint64 (buffer : Uint8Array) (value : Z) (offset : Z) : Uint8Array :=
  let buffer := write buffer (offset + 0) (Z.shiftr (Z.land value 0xFF00000000000000) 56) in
  let buffer := write buffer (offset + 1) (Z.shiftr (Z.land value 0x00FF000000000000) 48) in
  let buffer := write buffer (offset + 2) (Z.shiftr (Z.land value 0x0000FF0000000000) 40) in
  let buffer := write buffer (offset + 3) (Z.shiftr (Z.land value 0x000000FF00000000) 32) in
  let buffer := write buffer (offset + 4) (Z.shiftr (Z.land value 0x00000000FF000000) 24) in
  let buffer := write buffer (offset + 5) (Z.shiftr (Z.land value 0x0000000000FF0000) 16) in
  let buffer := write buffer (offset + 6) (Z.shiftr (Z.land value 0x000000000000FF00) 8) in
  write buffer (offset + 7) (Z.land value 0x00000000000000FF).

Definition setU16Fixed16 (buffer : Uint8Array) (value : Q) (offset : Z) : Uint8Array :=
  let uint := and (Qfloor value) 0xFFFF in
  let frac := Qfloor ((value - inject_Z uint) * inject_Z 0x10000)%Q in
  let raw := or (shl uint 16) frac in
  setUint32 buffer raw offset.

Definition getU1Fixed15 (buffer : Uint8Array) (offset : Z) : Q :=
  let raw := getUint16 buffer offset in
  let int := shr (and raw 0x8000) 15 in
  let frac := and raw 0x7FFF in
  (inject_Z int + inject_Z frac / inject_Z 0x8000)%Q.

Definition setU1Fixed15 (buffer : Uint8Array) (value : Q) (offset : Z) : Uint8Array :=
  let uint := and (Qfloor value) 0x1 in
  let frac := Qfloor ((value - inject_Z uint) * inject_Z 0x8000)%Q in
  let raw := or (shl uint 15) frac in
  setUint16 buffer raw offset.

Definition getU8Fixed8 (buffer : Uint8Array) (offset : Z) : Q :=
  let raw := getUint16 buffer offset in
  let int := shr (and raw 0xFF00) 8 in
  let frac := and raw 0x00FF in
  (inject_Z int + inject_Z frac / inject_Z 0x100)%Q.

Definition setU8Fixed8 (buffer : Uint8Array) (value : Q) (offset : Z) : Uint8Array :=
  let uint := and (Qfloor value) 0xFF in
  let frac := Qfloor ((value - inject_Z uint) * inject_Z 0x100)%Q in
  let raw := or (shl uint 8) frac in
  setUint16 buffer raw offset.

Record PositionNumber : Type := mkPositionNumber { pos_offset : Z; pos_size : Z }.

Definition getPositionNumber (buffer : Uint8Array) (offset : Z) : PositionNumber :=
  let o := getUint32 buffer (offset + 0) in
  let s := getUint32 buffer (offset + 4) in
  mkPositionNumber o s.

Definition setPositionNumber (buffer : Uint8Array) (value : PositionNumber) (offset : Z)
  : Uint8Array :=
  let buffer := setUint32 buffer (pos_offset value) (offset + 0) in
  setUint32 buffer (pos_size value) (offset + 4).

Record ResponseNumber : Type := mkResponseNumber { device : Z; measurement : Q }.

Definition getResponseNumber (buffer : Uint8Array) (offset : Z) : ResponseNumber :=
  let device := getUint16 buffer (offset + 0) in
  let measurement := getS15Fixed16 buffer (offset + 4) in
  mkResponseNumber device measurement.

Definition setResponseNumber (buffer : Uint8Array) (value : ResponseNumber) (offset : Z)
  : Uint8Array :=
  let buffer := setUint16 buffer (device value) (offset + 0) in
  setS15Fixed16 buffer (measurement value) (offset + 4).

(** [value.split("").forEach((c, i) => buffer[offset + i] = c.charCodeAt(0))],
    at character [i] of the string. *)
Fixpoint setSignatureLoop (buffer : Uint8Array) (chars : list Ascii.ascii)
    (offset i : Z) : Uint8Array :=
  match chars with
  | [] => buffer
  | c :: chars' =>
      setSignatureLoop (write buffer (offset + i) (Z.of_N (Ascii.N_of_ascii c)))
        chars' offset (i + 1)
  end.

Definition setSignature (buffer : Uint8Array) (value : string) (offset : Z) : Uint8Array :=
  setSignatureLoop buffer (String.list_ascii_of_string value) offset 0.

End Datatype.

(* ===================================================================== *)
(** * icc/header.ts: the 128-byte profile header                           *)
(* ===================================================================== *)

Module Header.
Import Js Datatype.

(** [IccHeader].  The enum-typed fields ([ProfileClass], [ColorSpace],
    [ProfileFlag], [DeviceAttribute], [RenderingIntent]) are casts of the
    raw string or number, so they are kept raw.  [version] holds
    [buffer[offset + 8]] as read, which is [undefined] past the end. *)
Record IccHeader : Type := mkIccHeader {
  profileSize : Z;
  preferredCmmType : string;
  version : option Z * Z * Z;
  profileClass : string;
  profileSpace : string;
  pcsSpace : string;
  creationDate : Date;
  creationPlatform : string;
  profileFlags : Z;
  deviceManufacturer : string;
  deviceModel : string;
  deviceAttributes : Z;
  renderingIntent : Z;
  pcsWhitePoint : Xyz
}.

(** [ColorSpace.RGB]. *)
Definition ColorSpace_RGB : string := "RGB ".

(** [getHeader(buffer, offset = 0)].  The only read that can throw is
    [getUint64] at byte 56, which does on a buffer shorter than 64 bytes;
    the reads before it have no effect, so the call then throws. *)
Definition getHeader (buffer : Uint8Array) (offset : Z) : completion IccHeader :=
  let profileSize := getUint32 buffer (offset + 0) in
  let preferredCmmType := getSignature buffer (offset + 4) in
  let versionMajor := read buffer (offset + 8) in
  let versionMinorPatch := read buffer (offset + 9) in
  let versionPatch := shr (and (int_of versionMinorPatch) 0xF0) 4 in
  let versionMinor := and (int_of versionMinorPatch) 0x0F in
  let version := (versionMajor, versionMinor, versionPatch) in
  let profileClass := getSignature buffer 12 in
  let profileSpace := getSignature buffer 16 in
  let pcsSpace := getSignature buffer 20 in
  let creationDate := getDatetime buffer 24 in
  let creationPlatform := getSignature buffer 40 in
  let profileFlags := getUint32 buffer 44 in
  let deviceManufacturer := getSignature buffer 48 in
  let deviceModel := getSignature buffer 52 in
  try! attributes <- getUint64 buffer 56;
  let deviceAttributes := Number attributes in
  let renderingIntent := getUint32 buffer 64 in
  let pcsWhitePoint := getXyz buffer 68 in
  ret
  {| profileSize := profileSize; preferredCmmType := preferredCmmType;
     version := version;
     profileClass := profileClass; profileSpace := profileSpace;
     pcsSpace := pcsSpace;
     creationDate := creationDate; creationPlatform := creationPlatform;
     profileFlags := profileFlags;
     deviceManufacturer := deviceManufacturer; deviceModel := deviceModel;
     deviceAttributes := deviceAttributes;
     renderingIntent := renderingIntent; pcsWhitePoint := pcsWhitePoint |}.

End Header.

(* ===================================================================== *)
(** * icc/tag.ts: the tag table                                            *)
(* ===================================================================== *)

Module Tag.
Import Js Datatype.

(** rgb.ts [Chromaticity], as the ["chrm"] parser fills it. *)
Record Chromaticity : Type := mkChromaticity { chroma_x : Q; chroma_y : Q }.

(** [TagData]: the union discriminated by [type]. *)
Inductive TagData : Type :=
| XyzTagData (values : list Xyz)
| CurveTagData (values : list Z)
| ChromaticityTagData (colorantType : Z) (channels : list Chromaticity).

Record Tag : Type := mkTag {
  signature : string;
  offset : Z;
  size : Z;
  data : option TagData
}.

(** [IccTagTable]: an object used as a map from signature to tag; the
    well-known keys ([rXYZ], [rTRC], ...) are entries of the same map. *)
Abbreviation IccTagTable := (gmap string Tag).

(** The ["XYZ "] parser: [while (xyzBase < offset + size)]. *)
Equations? parseXyzLoop (buffer : Uint8Array) (limit : Z) (xyzBase : Z)
  : list Xyz by wf (Z.to_nat (limit - xyzBase)) lt :=
  parseXyzLoop buffer limit xyzBase with Z_lt_dec xyzBase limit := {
    | left _ => getXyz buffer xyzBase :: parseXyzLoop buffer limit (xyzBase + 12)
    | right _ => []
  }.
Proof. lia. Qed.

Definition parseXyz (buffer : Uint8Array) (offset size : Z) : completion TagData :=
  let xyzBase := offset + 8 in
  ret (XyzTagData (parseXyzLoop buffer (offset + size) xyzBase)).

(** [for (let i = 0; i < count; i++)] with [n] iterations left. *)
Fixpoint parseCurvLoop (buffer : Uint8Array) (offset : Z) (i : Z) (n : nat) : list Z :=
  match n with
  | O => []
  | S n' => getUint16 buffer (offset + 12 + i * 2)
            :: parseCurvLoop buffer offset (i + 1) n'
  end.

(** The ["curv"] parser.  [new Uint16Array(count)] throws a [RangeError]
    for a negative length; a stored sample is below 2^16 already. *)
Definition parseCurv (buffer : Uint8Array) (offset size : Z) : completion TagData :=
  let count := getUint32 buffer (offset + 8) in
  if count <? 0 then throw RangeError
  else ret (CurveTagData (parseCurvLoop buffer offset 0 (Z.to_nat count))).

Fixpoint parseChrmLoop (buffer : Uint8Array) (offset : Z) (i : Z) (n : nat)
  : list Chromaticity :=
  match n with
  | O => []
  | S n' =>
      let x := getU16Fixed16 buffer (offset + 12 + i * 8) in
      let y := getU16Fixed16 buffer (offset + 16 + i * 8) in
      mkChromaticity x y :: parseChrmLoop buffer offset (i + 1) n'
  end.

Definition parseChrm (buffer : Uint8Array) (offset size : Z) : completion TagData :=
  let channelCount := getUint16 buffer (offset + 8) in
  let colorantType := getUint16 buffer (offset + 10) in
  ret (ChromaticityTagData colorantType
         (parseChrmLoop buffer offset 0 (Z.to_nat channelCount))).

(** [tagDataParsers[typeSignature]]: an object with three own keys. *)
Definition tagDataParsers (typeSignature : string)
  : option (Uint8Array -> Z -> Z -> completion TagData) :=
  if String.eqb typeSignature "XYZ " then Some parseXyz
  else if String.eqb typeSignature "curv" then Some parseCurv
  else if String.eqb typeSignature "chrm" then Some parseChrm
  else None.

(** One iteration of the loop of [getTagTable]. *)
Definition tagTableStep (buffer : Uint8Array) (start offset : Z) (i : Z)
    (table : IccTagTable) : completion IccTagTable :=
  let base := start + offset + 4 + i * 12 in
  let signature := getSignature buffer (base + 0) in
  let tagOffset := getUint32 buffer (base + 4) in
  let tagSize := getUint32 buffer (base + 8) in
  let table := <[signature := mkTag signature tagOffset tagSize None]> table in
  let typeSignature := getSignature buffer (start + tagOffset) in
  match tagDataParsers typeSignature with
  | None => ret table
  | Some parser =>
      try! d <- parser buffer (start + tagOffset) tagSize;
      ret (<[signature := mkTag signature tagOffset tagSize (Some d)]> table)
  end.

(** [for (let i = 0; i < count; i++)] with [n] iterations left. *)
Fixpoint tagTableLoop (buffer : Uint8Array) (start offset : Z) (i : Z) (n : nat)
    (table : IccTagTable) : completion IccTagTable :=
  match n with
  | O => ret table
  | S n' =>
      try! table <- tagTableStep buffer start offset i table;
      tagTableLoop buffer start offset (i + 1) n' table
  end.

(** [getTagTable(buffer, start = 0, offset = 128)]. *)
Definition getTagTable (buffer : Uint8Array) (start offset : Z)
  : completion IccTagTable :=
  let count := getUint32 buffer (start + offset + 0) in
  let table : IccTagTable := ∅ in
  tagTableLoop buffer start offset 0 (Z.to_nat count) table.

End Tag.

(* ===================================================================== *)
(** * math.ts: 3x3 matrices                                                *)
(* ===================================================================== *)

Module Math.
#[local] Open Scope R_scope.

Record Matrix3x3 : Type := mkMatrix3x3 {
  m00 : R; m01 : R; m02 : R;
  m10 : R; m11 : R; m12 : R;
  m20 : R; m21 : R; m22 : R
}.

Record Vector3 : Type := mkVector3 { x : R; y : R; z : R }.

(** The determinant computed in the first lines of [invertMat]. *)
Definition det (m : Matrix3x3) : R :=
  let '(mkMatrix3x3 m00 m01 m02 m10 m11 m12 m20 m21 m22) := m in
  m00 * (m11 * m22 - m21 * m12) -
  m01 * (m10 * m22 - m12 * m20) +
  m02 * (m10 * m21 - m11 * m20).

Definition invertMat (m : Matrix3x3) : Matrix3x3 :=
  let '(mkMatrix3x3 m00 m01 m02 m10 m11 m12 m20 m21 m22) := m in
  let det :=
    m00 * (m11 * m22 - m21 * m12) -
    m01 * (m10 * m22 - m12 * m20) +
    m02 * (m10 * m21 - m11 * m20) in
  let invdet := 1 / det in
  {| m00 := (m11 * m22 - m12 * m21) * invdet;
     m01 := - (m01 * m22 - m02 * m21) * invdet;
     m02 := (m01 * m12 - m02 * m11) * invdet;
     m10 := - (m10 * m22 - m12 * m20) * invdet;
     m11 := (m00 * m22 - m02 * m20) * invdet;
     m12 := - (m00 * m12 - m02 * m10) * invdet;
     m20 := (m10 * m21 - m11 * m20) * invdet;
     m21 := - (m00 * m21 - m01 * m20) * invdet;
     m22 := (m00 * m11 - m01 * m10) * invdet |}.

Definition matMulMV (m : Matrix3x3) (x y z : R) : Vector3 :=
  let '(mkMatrix3x3 m00 m01 m02 m10 m11 m12 m20 m21 m22) := m in
  {| x := m00 * x + m01 * y + m02 * z;
     y := m10 * x + m11 * y + m12 * z;
     z := m20 * x + m21 * y + m22 * z |}.

Definition clamp01 (x : R) : R :=
  let x := if Rlt_dec x 0 then 0 else x in
  let x := if Rgt_dec x 1 then 1 else x in
  x.

End Math.

(* ===================================================================== *)
(** * curve.ts: transfer curves                                            *)
(* ===================================================================== *)

Module Curve.
#[local] Open Scope R_scope.

(** [Curve = IdentityCurve | GammaCurve | LutCurve].  The union is closed,
    so the final [throw] of [apply] and [applyInverse] is not reachable
    from a well-typed curve. *)
Inductive Curve : Type :=
| Identity
| Gamma (gamma : R)
| Lut (values : list R).

(** [x ** g].  For a base [x > 0] it is the real power; [0 ** g] is 0 for
    [g > 0] and 1 for [g = 0]; for a base [x < 0] and an integer exponent
    it is the integer power, so [(-2) ** 2] is 4.  ([0 ** g] with [g < 0]
    is [Infinity] and a negative base with a fractional exponent gives
    [NaN] in JavaScript: no real number is the result there, and the
    value the definition takes at such arguments stands for none.) *)
Definition pow (x g : R) : R :=
  if Req_dec_T x 0 then (if Req_dec_T g 0 then 1 else 0)
  else if Rlt_dec 0 x then Rpower x g
  else powerRZ x (Zfloor g).

(** [Math.round]: the nearest integer, halves rounded up. *)
Definition round (x : R) : Z := Zfloor (x + / 2).

(** [array[i]] for an integer index: [undefined] outside the array. *)
Definition index {A} (array : list A) (i : Z) : option A :=
  if (i <? 0)%Z then None else array !! Z.to_nat i.

(** [values.length - 1]. *)
Definition lastIndex {A} (values : list A) : Z := (Z.of_nat (length values) - 1)%Z.

Definition apply (curve : Curve) (x : R) : option R :=
  match curve with
  | Identity => Some x
  | Gamma gamma => Some (pow x gamma)
  | Lut values => index values (round (IZR (lastIndex values) * x))
  end.

(** The loop of [binarySearch].  [(low + high) >> 1] halves the sum of two
    indices, which is a 32-bit integer for arrays of fewer than 2^30
    elements.  A comparison with [undefined] is false both ways. *)
Equations? binarySearchLoop (array : list R) (value : R) (low high : Z)
  : Z by wf (Z.to_nat (high - low + 1)) lt :=
  binarySearchLoop array value low high with Z_le_dec low high := {
    | right _ => (- (low + 1))%Z
    | left _ with index array (Z.shiftr (low + high) 1) := {
      | None => Z.shiftr (low + high) 1
      | Some a with Rlt_dec a value := {
        | left _ => binarySearchLoop array value (Z.shiftr (low + high) 1 + 1) high
        | right _ with Rgt_dec a value := {
          | left _ => binarySearchLoop array value low (Z.shiftr (low + high) 1 - 1)
          | right _ => Z.shiftr (low + high) 1
          }
        }
      }
  }.
Proof.
  all: rewrite Z.shiftr_div_pow2 by lia; change (2 ^ 1)%Z with 2%Z.
  all: pose proof (Z.div_mod (low + high) 2 ltac:(lia));
       pose proof (Z.mod_pos_bound (low + high) 2 ltac:(lia)); lia.
Qed.

Definition binarySearch (array : list R) (value : R) : Z :=
  let low := 0%Z in
  let high := lastIndex array in
  binarySearchLoop array value low high.

Definition applyInverse (curve : Curve) (y : R) : R :=
  match curve with
  | Identity => y
  | Gamma gamma => pow y (1 / gamma)
  | Lut values =>
      let search := binarySearch values y in
      let insert := if (search >=? 0)%Z then search else (- search - 1)%Z in
      IZR insert / IZR (lastIndex values)
  end.

End Curve.

(* ===================================================================== *)
(** * profile.ts and rgb.ts: RGB profiles from literal primaries           *)
(* ===================================================================== *)

Module Rgb.
Import Math Curve.
#[local] Open Scope R_scope.

(** profile.ts [XyzColor] has the fields of [Vector3]. *)
Abbreviation XyzColor := Vector3.

Record RgbColor : Type := mkRgbColor { r : R; g : R; b : R }.
Record Chromaticity : Type := mkChromaticity { cx : R; cy : R }.

Record RgbPrimary : Type := mkRgbPrimary {
  chromaticity : Chromaticity;
  trc : Curve
}.

Record RgbPrimaries : Type := mkRgbPrimaries {
  prim_r : RgbPrimary;
  prim_g : RgbPrimary;
  prim_b : RgbPrimary
}.

Record WhitePoint : Type := mkWhitePoint {
  wp_chromaticity : Chromaticity;
  luminance : R
}.

Record RgbProfileInfo : Type := mkRgbProfileInfo {
  primaries : RgbPrimaries;
  whitePoint : WhitePoint
}.

Record RgbMatrices : Type := mkRgbMatrices {
  xyz : Matrix3x3;
  rgb : Matrix3x3
}.

(** [{ ...c, z: 1 - c.x - c.y }]. *)
Definition lift (c : Chromaticity) : Vector3 :=
  {| x := cx c; y := cy c; z := 1 - cx c - cy c |}.

(** The matrix of lifted primaries that [calcMatrices] inverts. *)
Definition primariesMatrix (r g b : Chromaticity) : Matrix3x3 :=
  let Rxyz := lift r in
  let Gxyz := lift g in
  let Bxyz := lift b in
  {| m00 := x Rxyz; m01 := x Gxyz; m02 := x Bxyz;
     m10 := y Rxyz; m11 := y Gxyz; m12 := y Bxyz;
     m20 := z Rxyz; m21 := z Gxyz; m22 := z Bxyz |}.

Definition calcMatrices (r g b : Chromaticity) (w : XyzColor) : RgbMatrices :=
  let Rxyz := lift r in
  let Gxyz := lift g in
  let Bxyz := lift b in
  let '(mkVector3 sumRXYZ sumGXYZ sumBXYZ) :=
    matMulMV (invertMat (primariesMatrix r g b)) (x w) (y w) (z w) in
  let M :=
    {| m00 := x Rxyz * sumRXYZ; m01 := x Gxyz * sumGXYZ; m02 := x Bxyz * sumBXYZ;
       m10 := y Rxyz * sumRXYZ; m11 := y Gxyz * sumGXYZ; m12 := y Bxyz * sumBXYZ;
       m20 := z Rxyz * sumRXYZ; m21 := z Gxyz * sumGXYZ; m22 := z Bxyz * sumBXYZ |} in
  {| xyz := M; rgb := invertMat M |}.

Record RgbConversionInfo : Type := mkRgbConversionInfo {
  sdr : RgbMatrices;
  hdr : RgbMatrices
}.

(** The two white tristimuli built at the start of [calcConversionInfo]. *)
Definition sdrWhitePoint (w : WhitePoint) : XyzColor :=
  {| x := cx (wp_chromaticity w);
     y := cy (wp_chromaticity w);
     z := 1 - cx (wp_chromaticity w) - cy (wp_chromaticity w) |}.

Definition hdrWhitePoint (w : WhitePoint) : XyzColor :=
  {| x := x (sdrWhitePoint w) * luminance w;
     y := y (sdrWhitePoint w) * luminance w;
     z := z (sdrWhitePoint w) * luminance w |}.

Definition calcConversionInfo (r g b : Chromaticity) (w : WhitePoint)
  : RgbConversionInfo :=
  {| sdr := calcMatrices r g b (sdrWhitePoint w);
     hdr := calcMatrices r g b (hdrWhitePoint w) |}.

(** [class RgbProfile]: the serializable description and the matrices
    cached by the constructor. *)
Record RgbProfile : Type := mkRgbProfile {
  serializable : RgbProfileInfo;
  conversion : RgbConversionInfo
}.

(** [new RgbProfile(serializable)]. *)
Definition newRgbProfile (serializable : RgbProfileInfo) : RgbProfile :=
  {| serializable := serializable;
     conversion := calcConversionInfo
       (chromaticity (prim_r (primaries serializable)))
       (chromaticity (prim_g (primaries serializable)))
       (chromaticity (prim_b (primaries serializable)))
       (whitePoint serializable) |}.

Definition toXyz (this : RgbProfile) (color : RgbColor) (hdr_ : bool) : XyzColor :=
  let r := applyInverse (trc (prim_r (primaries (serializable this)))) (clamp01 (r color)) in
  let g := applyInverse (trc (prim_g (primaries (serializable this)))) (clamp01 (g color)) in
  let b := applyInverse (trc (prim_b (primaries (serializable this)))) (clamp01 (b color)) in
  let matrices := if hdr_ then hdr (conversion this) else sdr (conversion this) in
  matMulMV (xyz matrices) r g b.

(** The built-in profiles. *)
Definition linearSrgb : RgbProfileInfo :=
  {| primaries :=
       {| prim_r := {| chromaticity := mkChromaticity 0.64 0.33; trc := Identity |};
          prim_g := {| chromaticity := mkChromaticity 0.30 0.60; trc := Identity |};
          prim_b := {| chromaticity := mkChromaticity 0.15 0.06; trc := Identity |} |};
     whitePoint :=
       {| wp_chromaticity := mkChromaticity 0.3127 0.3290; luminance := 80 |} |}.

Definition srgb : RgbProfileInfo :=
  {| primaries :=
       {| prim_r := {| chromaticity := mkChromaticity 0.64 0.33; trc := Gamma 2.2 |};
          prim_g := {| chromaticity := mkChromaticity 0.30 0.60; trc := Gamma 2.2 |};
          prim_b := {| chromaticity := mkChromaticity 0.15 0.06; trc := Gamma 2.2 |} |};
     whitePoint :=
       {| wp_chromaticity := mkChromaticity 0.3127 0.3290; luminance := 80 |} |}.

Definition P3D65 : RgbProfileInfo :=
  {| primaries :=
       {| prim_r := {| chromaticity := mkChromaticity 0.680 0.32; trc := Gamma 2.6 |};
          prim_g := {| chromaticity := mkChromaticity 0.265 0.69; trc := Gamma 2.6 |};
          prim_b := {| chromaticity := mkChromaticity 0.150 0.06; trc := Gamma 2.6 |} |};
     whitePoint :=
       {| wp_chromaticity := mkChromaticity 0.3127 0.3290; luminance := 48 |} |}.

Definition P3DCI : RgbProfileInfo :=
  {| primaries := primaries P3D65;
     whitePoint :=
       {| wp_chromaticity := mkChromaticity 0.3140 0.3510; luminance := 48 |} |}.

(** [RgbColor] as [fromXyz] returns it: a channel is [undefined] ([None])
    when the table read of [apply] falls outside the table. *)
Record RgbChannels : Type := mkRgbChannels {
  out_r : option R;
  out_g : option R;
  out_b : option R
}.

Definition fromXyz (this : RgbProfile) (xyz_ : XyzColor) (hdr_ : bool) : RgbChannels :=
  let matrices := if hdr_ then hdr (conversion this) else sdr (conversion this) in
  let '(mkVector3 r g b) := matMulMV (rgb matrices) (x xyz_) (y xyz_) (z xyz_) in
  let r := apply (trc (prim_r (primaries (serializable this)))) (clamp01 r) in
  let g := apply (trc (prim_g (primaries (serializable this)))) (clamp01 g) in
  let b := apply (trc (prim_b (primaries (serializable this)))) (clamp01 b) in
  {| out_r := r; out_g := g; out_b := b |}.

(** The default [hdr = false] of [toXyz] and [fromXyz]. *)
Definition hdrOr (hdr_ : option bool) : bool := default false hdr_.

(** [to(profile, color, hdr?)]: [profile.fromXyz(this.toXyz(color, hdr), hdr)],
    with the target profile given by its [fromXyz]. *)
Definition to {TTarget : Type} (this : RgbProfile)
    (profile_fromXyz : XyzColor -> option bool -> TTarget)
    (color : RgbColor) (hdr_ : option bool) : TTarget :=
  profile_fromXyz (toXyz this color (hdrOr hdr_)) hdr_.

(** An [RgbProfile] as the target of [to]. *)
Definition target (profile : RgbProfile) (xyz_ : XyzColor) (hdr_ : option bool)
  : RgbChannels :=
  fromXyz profile xyz_ (hdrOr hdr_).

End Rgb.

(* ===================================================================== *)
(** * icc/profile.ts: profiles built from a parsed ICC file                *)
(* ===================================================================== *)

Module IccProfile.
Import Js Datatype Header Tag Math Curve.
#[local] Open Scope R_scope.

Record IccProfileInfo : Type := mkIccProfileInfo {
  header : IccHeader;
  tags : IccTagTable
}.

(** [parseIcc(buffer, start = 0)]. *)
Definition parseIcc (buffer : Uint8Array) (start : Z) : completion IccProfileInfo :=
  try! header <- getHeader buffer start;
  try! tags <- getTagTable buffer start 128;
  ret {| header := header; tags := tags |}.

(** [curveOf] on the samples of a ["curv"] payload. *)
Definition curveOf (values : list Z) : Curve :=
  match values with
  | [] => Identity
  | [raw] =>
      let int := Js.shr (Js.and raw 0xFF00) 8 in
      let frac := Js.and raw 0x00FF in
      let gamma := IZR int + IZR frac / 256 in
      Gamma gamma
  | _ => Lut (map (fun v => IZR v / 65535) values)
  end.

(** [class IccRgbProfile].  [trc] is the array literal of the constructor,
    which always has three elements. *)
Record IccRgbProfile : Type := mkIccRgbProfile {
  serializable : IccProfileInfo;
  xyzMatrix : Matrix3x3;
  rgbMatrix : Matrix3x3;
  trc : Curve * Curve * Curve
}.

Definition trc0 (this : IccRgbProfile) : Curve := (trc this).1.1.
Definition trc1 (this : IccRgbProfile) : Curve := (trc this).1.2.
Definition trc2 (this : IccRgbProfile) : Curve := (trc this).2.

(** What [tag!.data.values[0]] can evaluate to.  The non-null assertion
    [!] and the declared payload types are erased at run time, so the
    payload found under a key may be of any of the three kinds. *)
Inductive JsValue : Type :=
| VUndefined
| VXyz (v : Xyz)
| VNumber (n : Z).

(** [icc.tags.<key>!.data.values[0]]: each property read on [undefined]
    throws a [TypeError]; a ["chrm"] payload has no [values]. *)
Definition firstValue (tag : option Tag) : completion JsValue :=
  match tag with
  | None => throw (TypeError "data")
  | Some t =>
      match data t with
      | None => throw (TypeError "values")
      | Some (XyzTagData values) => ret (from_option VXyz VUndefined (head values))
      | Some (CurveTagData values) => ret (from_option VNumber VUndefined (head values))
      | Some (ChromaticityTagData _ _) => throw (TypeError "0")
      end
  end.

(** Reading [.x], [.y], [.z] off such a value for a matrix column: a
    [TypeError] on [undefined], three [undefined] entries ([None]) on a
    number. *)
Definition column (v : JsValue) : completion (option Xyz) :=
  match v with
  | VUndefined => throw (TypeError "x")
  | VXyz v => ret (Some v)
  | VNumber _ => ret None
  end.

(** [curveOf(icc.tags.<key>!.data)] on whatever payload is found.  On an
    ["XYZ "] payload the samples are objects: one sample gives gamma 0
    (the bitwise operators turn the object into 0), several give a table
    of [NaN] ([None]). *)
Definition curveOfTag (tag : option Tag) : completion (option Curve) :=
  match tag with
  | None => throw (TypeError "data")
  | Some t =>
      match data t with
      | None => throw (TypeError "values")
      | Some (CurveTagData values) => ret (Some (curveOf values))
      | Some (XyzTagData []) => ret (Some Identity)
      | Some (XyzTagData [_]) => ret (Some (Gamma (0 + 0 / 256)))
      | Some (XyzTagData _) => ret None
      | Some (ChromaticityTagData _ _) => throw (TypeError "length")
      end
  end.

Definition xyzMatrixOf (rXYZ gXYZ bXYZ : Xyz) : Matrix3x3 :=
  {| m00 := Q2R (Datatype.x rXYZ); m01 := Q2R (Datatype.x gXYZ); m02 := Q2R (Datatype.x bXYZ);
     m10 := Q2R (Datatype.y rXYZ); m11 := Q2R (Datatype.y gXYZ); m12 := Q2R (Datatype.y bXYZ);
     m20 := Q2R (Datatype.z rXYZ); m21 := Q2R (Datatype.z gXYZ); m22 := Q2R (Datatype.z bXYZ) |}.

(** [new IccRgbProfile(icc)], in evaluation order.  The call throws, or
    returns; it returns [None] when an [undefined] or [NaN] entered the
    matrices or a curve (a payload of another kind than declared), a
    profile that exact reals cannot hold. *)
Definition newIccRgbProfile (icc : IccProfileInfo) : completion (option IccRgbProfile) :=
  try! rXYZ <- firstValue (tags icc !! "rXYZ");
  try! gXYZ <- firstValue (tags icc !! "gXYZ");
  try! bXYZ <- firstValue (tags icc !! "bXYZ");
  try! rCol <- column rXYZ;
  try! gCol <- column gXYZ;
  try! bCol <- column bXYZ;
  try! rTRC <- curveOfTag (tags icc !! "rTRC");
  try! gTRC <- curveOfTag (tags icc !! "gTRC");
  try! bTRC <- curveOfTag (tags icc !! "bTRC");
  ret (match rCol, gCol, bCol, rTRC, gTRC, bTRC with
       | Some rXYZ, Some gXYZ, Some bXYZ, Some rTRC, Some gTRC, Some bTRC =>
           let xyzMatrix := xyzMatrixOf rXYZ gXYZ bXYZ in
           Some {| serializable := icc;
                   xyzMatrix := xyzMatrix;
                   rgbMatrix := invertMat xyzMatrix;
                   trc := (rTRC, gTRC, bTRC) |}
       | _, _, _, _, _, _ => None
       end).

(** [profileOf(icc)]. *)
Definition profileOf (icc : IccProfileInfo) : completion (option IccRgbProfile) :=
  if String.eqb (profileSpace (header icc)) ColorSpace_RGB
  then newIccRgbProfile icc
  else throw (Error ("Unsupported color space: " +:+ profileSpace (header icc))).

(** [toXyz([r, g, b], _hdr = false)].  A missing colour component or an
    out-of-range table read is [undefined], which makes every component
    of the product [NaN]: [None]. *)
Definition toXyz (this : IccRgbProfile) (color : list R) (_hdr : bool)
  : option Rgb.XyzColor :=
  r ← color !! 0%nat;
  g ← color !! 1%nat;
  b ← color !! 2%nat;
  r' ← apply (trc0 this) r;
  g' ← apply (trc1 this) g;
  b' ← apply (trc2 this) b;
  Some (matMulMV (xyzMatrix this) r' g' b').

Definition fromXyz (this : IccRgbProfile) (xyz : Rgb.XyzColor) (_hdr : bool) : list R :=
  let '(mkVector3 r g b) := matMulMV (rgbMatrix this) (x xyz) (y xyz) (z xyz) in
  [ applyInverse (trc0 this) r;
    applyInverse (trc0 this) g;
    applyInverse (trc0 this) b ].

End IccProfile.


(* ===================================================================== *)
(** * Notions used to state the properties                                 *)
(* ===================================================================== *)

Module Notions.
Import Js Datatype Tag Curve.
#[local] Open Scope R_scope.

(** Strictly ascending samples: the precondition of the inverse lookup
    (repeated or out-of-order samples are outside it). *)
Definition ascending (values : list R) : Prop := StronglySorted Rlt values.

(** The insertion index of [y]: the length of the run of leading samples
    that are below [y]. *)
Fixpoint insertionIndex (values : list R) (y : R) : nat :=
  match values with
  | [] => 0
  | v :: values' => if Rlt_dec v y then S (insertionIndex values' y) else 0
  end.

(** Curves as the data model admits them: a positive gamma, a table of at
    least two ascending samples. *)
Definition wellFormed (c : Curve) : Prop :=
  match c with
  | Identity => True
  | Gamma gamma => 0 < gamma
  | Lut values => (2 <= length values)%nat /\ ascending values
  end.

(** Non-decreasing samples, stated on indices. *)
Definition monotone (array : list R) : Prop :=
  forall (i j : nat) (a b : R),
    (i <= j)%nat -> array !! i = Some a -> array !! j = Some b -> a <= b.

(** The loop invariant of [binarySearch]: everything before [k] is below
    [value], everything from [k] on is above it. *)
Definition belowBefore (array : list R) (value : R) (k : Z) : Prop :=
  forall (j : Z) (a : R), (j < k)%Z -> index array j = Some a -> a < value.
Definition aboveFrom (array : list R) (value : R) (k : Z) : Prop :=
  forall (j : Z) (a : R), (k <= j)%Z -> index array j = Some a -> value < a.

(** What the search returns: a hit is an index holding [value]; a miss
    encodes the index that separates the samples below [value] from those
    above it. *)
Definition searchResult (array : list R) (value : R) (r : Z) : Prop :=
  ((0 <= r)%Z /\ index array r = Some value) \/
  ((r < 0)%Z /\ (0 <= - r - 1 <= Z.of_nat (length array))%Z /\
   belowBefore array value (- r - 1) /\ aboveFrom array value (- r - 1)).

(** The six tags the constructor of [IccRgbProfile] reads. *)
Definition requiredTags : list string :=
  ["rXYZ"; "gXYZ"; "bXYZ"; "rTRC"; "gTRC"; "bTRC"].

(** An error that reports [tag] as missing: an [Error] whose message
    mentions the tag.  A [TypeError] is the null-dereference. *)
Definition missingTagError (e : JsError) (tag : string) : Prop :=
  exists message : string,
    e = Error message /\ is_Some (String.index 0 tag message).

(** The entry recorded for a tag-table slot that lies past the end of the
    buffer. *)
Definition emptyTag : Tag := mkTag EmptyString 0 0 None.

(** A multiple of 1/65536 in the range of an s15Fixed16 number. *)
Definition representable (v : Q) : Prop :=
  exists k : Z, (v == k # 65536)%Q /\ (-32768 <= v)%Q /\ (v < 32768)%Q.

(** A curve without a table, with a positive exponent. *)
Definition analytic (c : Curve) : Prop :=
  match c with
  | Identity => True
  | Gamma gamma => 0 < gamma
  | Lut _ => False
  end.

(** What slot [i] of the tag directory says of a tag: the signature, the
    offset and the size read at the slot, and as payload what the parser
    registered for the type signature found at the tag's offset returns
    (no payload when no parser is registered for it). *)
Definition describes (buffer : Uint8Array) (start offset i : Z) (tag : Tag) : Prop :=
  let base := (start + offset + 4 + i * 12)%Z in
  signature tag = getSignature buffer (base + 0)%Z /\
  Tag.offset tag = getUint32 buffer (base + 4)%Z /\
  size tag = getUint32 buffer (base + 8)%Z /\
  match tagDataParsers (getSignature buffer (start + Tag.offset tag)%Z) with
  | None => data tag = None
  | Some parser =>
      exists d : TagData,
        parser buffer (start + Tag.offset tag)%Z (size tag) = inr d /\ data tag = Some d
  end.

End Notions.

(* ===================================================================== *)
(** * Concrete inputs                                                      *)
(* ===================================================================== *)

Module Inputs.
Import Datatype Header Math Curve.

(** A display-class RGB header: ["mntr"] at 12, ["RGB "] at 16, ["XYZ "]
    at 20. *)
Definition mntrHeader : Uint8Array :=
  replicate 12 x00 ++ [x6d; x6e; x74; x72] ++ [x52; x47; x42; x20]
  ++ [x58; x59; x5a; x20] ++ replicate 104 x00.

(** The same profile embedded after 128 bytes of other data (["A"]). *)
Definition embedded : Uint8Array := replicate 128 x41 ++ mntrHeader.

(** A header followed by a tag count of 1 and nothing else. *)
Definition truncated : Uint8Array := replicate 128 x00 ++ [x00; x00; x00; x01].

(** The same, in a buffer that starts with ["curv"] and holds -1 at
    byte 8. *)
Definition truncatedCurv : Uint8Array :=
  [x63; x75; x72; x76] ++ replicate 4 x00 ++ [xff; xff; xff; xff]
  ++ replicate 116 x00 ++ [x00; x00; x00; x01].

(** A header declaring the RGB colour space, followed by an empty tag
    table. *)
Definition rgbNoTags : Uint8Array :=
  replicate 16 x00 ++ [x52; x47; x42; x20] ++ replicate 108 x00
  ++ [x00; x00; x00; x00].

(** The header that [getHeader] returns on [rgbNoTags]. *)
Definition noTagsHeader : IccHeader := Js.returned (getHeader rgbNoTags 0) I.

Definition noTagsInfo : IccProfile.IccProfileInfo :=
  {| IccProfile.header := noTagsHeader; IccProfile.tags := ∅ |}.

(** A header declaring the CMYK colour space, followed by an empty tag
    table. *)
Definition cmykNoTags : Uint8Array :=
  replicate 16 x00 ++ [x43; x4d; x59; x4b] ++ replicate 108 x00
  ++ [x00; x00; x00; x00].

(** The primaries of the built-in sRGB profile. *)
Definition srgbRed : Rgb.Chromaticity :=
  Rgb.chromaticity (Rgb.prim_r (Rgb.primaries Rgb.srgb)).
Definition srgbGreen : Rgb.Chromaticity :=
  Rgb.chromaticity (Rgb.prim_g (Rgb.primaries Rgb.srgb)).
Definition srgbBlue : Rgb.Chromaticity :=
  Rgb.chromaticity (Rgb.prim_b (Rgb.primaries Rgb.srgb)).

(** A profile with one tag: ["rXYZ"] at 144, of size 20, holding the
    ["XYZ "] payload (0.5, 1, -1). *)
Definition oneTag : Uint8Array :=
  replicate 128 x00 ++ [x00; x00; x00; x01]
  ++ [x72; x58; x59; x5a] ++ [x00; x00; x00; x90] ++ [x00; x00; x00; x14]
  ++ [x58; x59; x5a; x20] ++ replicate 4 x00
  ++ [x00; x00; x80; x00] ++ [x00; x01; x00; x00] ++ [xff; xff; x00; x00].

(** A ["curv"] payload with the two samples 0 and 65535. *)
Definition twoSamples : Uint8Array :=
  [x63; x75; x72; x76] ++ replicate 4 x00 ++ [x00; x00; x00; x02]
  ++ [x00; x00; xff; xff].

(** A ["chrm"] payload with one channel, (0.5, 0.25), of colorant type 1. *)
Definition oneChannel : Uint8Array :=
  [x63; x68; x72; x6d] ++ replicate 4 x00 ++ [x00; x01] ++ [x00; x01]
  ++ [x00; x00; x80; x00] ++ [x00; x00; x40; x00].

(** A parsed RGB profile whose colorant columns are the unit vectors and
    whose three curves are the single sample 0x0200 (gamma 2). *)
Definition gammaTwo : Tag.TagData := Tag.CurveTagData [0x0200].
Definition unitIcc : IccProfile.IccProfileInfo :=
  {| IccProfile.header := noTagsHeader;
     IccProfile.tags :=
       {[ "rXYZ" := Tag.mkTag "rXYZ" 0 20 (Some (Tag.XyzTagData [mkXyz 1 0 0]));
          "gXYZ" := Tag.mkTag "gXYZ" 0 20 (Some (Tag.XyzTagData [mkXyz 0 1 0]));
          "bXYZ" := Tag.mkTag "bXYZ" 0 20 (Some (Tag.XyzTagData [mkXyz 0 0 1]));
          "rTRC" := Tag.mkTag "rTRC" 0 14 (Some gammaTwo);
          "gTRC" := Tag.mkTag "gTRC" 0 14 (Some gammaTwo);
          "bTRC" := Tag.mkTag "bTRC" 0 14 (Some gammaTwo) ]} |}.

(** The same profile with gamma 2 as red curve only: the green and the
    blue curve have no sample (the identity). *)
Definition noSample : Tag.TagData := Tag.CurveTagData [].
Definition redGammaIcc : IccProfile.IccProfileInfo :=
  {| IccProfile.header := noTagsHeader;
     IccProfile.tags :=
       {[ "rXYZ" := Tag.mkTag "rXYZ" 0 20 (Some (Tag.XyzTagData [mkXyz 1 0 0]));
          "gXYZ" := Tag.mkTag "gXYZ" 0 20 (Some (Tag.XyzTagData [mkXyz 0 1 0]));
          "bXYZ" := Tag.mkTag "bXYZ" 0 20 (Some (Tag.XyzTagData [mkXyz 0 0 1]));
          "rTRC" := Tag.mkTag "rTRC" 0 14 (Some gammaTwo);
          "gTRC" := Tag.mkTag "gTRC" 0 12 (Some noSample);
          "bTRC" := Tag.mkTag "bTRC" 0 12 (Some noSample) ]} |}.

(** The profile that the constructor builds from it. *)
Definition redGammaProfile : IccProfile.IccRgbProfile :=
  let xyzMatrix := IccProfile.xyzMatrixOf (mkXyz 1 0 0) (mkXyz 0 1 0) (mkXyz 0 0 1) in
  {| IccProfile.serializable := redGammaIcc;
     IccProfile.xyzMatrix := xyzMatrix;
     IccProfile.rgbMatrix := invertMat xyzMatrix;
     IccProfile.trc :=
       (IccProfile.curveOf [0x0200], IccProfile.curveOf [], IccProfile.curveOf []) |}.

End Inputs.


(* ===================================================================== *)
(** * Properties of the binary field codec                                 *)
(* ===================================================================== *)

Module DatatypeFacts.
Import Js Datatype Notions.
#[local] Open Scope Z_scope.

(** ** 32-bit conversion *)

Lemma to_int32_small (z : Z) : - 2 ^ 31 <= z < 2 ^ 31 -> to_int32 z = z.
Proof. intros H. unfold to_int32. rewrite Z.mod_small; lia. Qed.

Lemma to_int32_range (z : Z) : - 2 ^ 31 <= to_int32 z < 2 ^ 31.
Proof.
  unfold to_int32.
  pose proof (Z.mod_pos_bound (z + 2 ^ 31) (2 ^ 32) ltac:(lia)). lia.
Qed.

Lemma to_int32_mod (z : Z) : to_int32 z mod 2 ^ 32 = z mod 2 ^ 32.
Proof.
  unfold to_int32.
  rewrite Zminus_mod, Z.mod_mod by lia. rewrite <- Zminus_mod. f_equal. lia.
Qed.

(** Bit [n] of the converted integer is bit [n] of the operand below the
    sign bit, and the sign bit from there on. *)
Lemma to_int32_testbit (z n : Z) :
  0 <= n -> Z.testbit (to_int32 z) n = Z.testbit z (Z.min n 31).
Proof.
  intros Hn.
  assert (Hlow : forall m, 0 <= m < 32 -> Z.testbit (to_int32 z) m = Z.testbit z m).
  { intros m Hm. rewrite <- (Z.mod_pow2_bits_low (to_int32 z) 32 m) by lia.
    rewrite to_int32_mod. apply Z.mod_pow2_bits_low. lia. }
  destruct (Z.lt_ge_cases n 32) as [Hlt|Hge].
  - destruct (Z.lt_ge_cases n 31).
    + rewrite Z.min_l by lia. apply Hlow. lia.
    + replace n with 31 by lia. rewrite Z.min_r by lia. apply Hlow. lia.
  - rewrite Z.min_r by lia. rewrite <- (Hlow 31) by lia.
    pose proof (to_int32_range z) as Hr.
    destruct (Z.lt_ge_cases (to_int32 z) 0) as [Hneg|Hpos].
    + assert (Z.log2 (Z.pred (- to_int32 z)) < 31).
      { destruct (Z.eq_dec (to_int32 z) (-1)) as [->|]; [simpl; lia|].
        apply Z.log2_lt_pow2; lia. }
      rewrite !Z.bits_above_log2_neg; try lia; trivial.
    + destruct (Z.eq_dec (to_int32 z) 0) as [->|]; [now rewrite !Z.testbit_0_l|].
      assert (Z.log2 (to_int32 z) < 31) by (apply Z.log2_lt_pow2; lia).
      rewrite !Z.bits_above_log2; try lia; trivial.
Qed.

(** Bitwise goals: push [Z.testbit] through the operators, deciding the
    side conditions on the index by [lia]. *)
Ltac bits_step :=
  match goal with
  | |- context [Z.testbit (Z.lor ?a ?b) ?i] => rewrite (Z.lor_spec a b i)
  | |- context [Z.testbit (Z.land ?a ?b) ?i] => rewrite (Z.land_spec a b i)
  | |- context [Z.testbit 0 ?i] => rewrite (Z.testbit_0_l i)
  | |- context [Z.testbit ?a ?i] => rewrite (Z.testbit_neg_r a i) by lia
  | |- context [Z.testbit (Z.lnot ?a) ?i] => rewrite (Z.lnot_spec a i) by lia
  | |- context [Z.testbit (to_int32 ?a) ?i] => rewrite (to_int32_testbit a i) by lia
  | |- context [Z.testbit (Z.shiftl ?a ?k) ?i] => rewrite (Z.shiftl_spec a k i) by lia
  | |- context [Z.testbit (Z.shiftr ?a ?k) ?i] => rewrite (Z.shiftr_spec a k i) by lia
  | |- context [Z.testbit (?a mod 2 ^ ?k) ?i] => rewrite (Z.mod_pow2_bits_low a k i) by lia
  | |- context [Z.testbit (?a mod 2 ^ ?k) ?i] => rewrite (Z.mod_pow2_bits_high a k i) by lia
  | |- context [Z.testbit (Z.ones ?k) ?i] => rewrite (Z.ones_spec_low k i) by lia
  | |- context [Z.testbit (Z.ones ?k) ?i] => rewrite (Z.ones_spec_high k i) by lia
  | |- context [Z.min ?a ?b] => rewrite (Z.min_l a b) by lia
  | |- context [Z.min ?a ?b] => rewrite (Z.min_r a b) by lia
  end.

Ltac bits_norm :=
  repeat bits_step;
  rewrite ?andb_true_r, ?andb_false_r, ?orb_false_r, ?orb_false_l,
          ?andb_true_l, ?andb_false_l;
  try reflexivity; try (f_equal; lia).

(** The index ranges on which the masks of the codec are constant. *)
Ltac split_index n :=
  destruct (Z.lt_ge_cases n 8);
  [|destruct (Z.lt_ge_cases n 15);
    [|destruct (Z.lt_ge_cases n 16);
      [|destruct (Z.lt_ge_cases n 24); [|destruct (Z.lt_ge_cases n 31)]]]].

(** ** Reading and writing bytes *)

Lemma byte_roundtrip (v : Z) : byte_to_Z (byte_of_Z v) = v mod 256.
Proof.
  unfold byte_to_Z, byte_of_Z, to_uint8.
  pose proof (Z.mod_pos_bound v 256 ltac:(lia)) as Hb.
  destruct (Byte.of_N (Z.to_N (v mod 256))) as [b|] eqn:E.
  - apply Byte.to_of_N in E. simpl. rewrite E. lia.
  - apply Byte.of_N_None_iff in E. lia.
Qed.

Lemma length_write (b : Uint8Array) (i v : Z) : length (write b i v) = length b.
Proof. unfold write. destruct (i <? 0); [done|]. apply length_insert. Qed.

Lemma read_write_eq (b : Uint8Array) (i v : Z) :
  0 <= i < Z.of_nat (length b) -> read (write b i v) i = Some (v mod 256).
Proof.
  intros H. unfold read, write.
  destruct (Z.ltb_spec i 0); [lia|]. cbv iota.
  rewrite list_lookup_insert_eq by lia. simpl. now rewrite byte_roundtrip.
Qed.

Lemma read_write_ne (b : Uint8Array) (i j v : Z) :
  i <> j -> read (write b i v) j = read b j.
Proof.
  intros H. unfold read, write.
  destruct (Z.ltb_spec j 0); [done|].
  destruct (Z.ltb_spec i 0); [done|]. cbv iota.
  rewrite list_lookup_insert_ne by lia. done.
Qed.

Lemma read_past_end (buffer : Uint8Array) (i : Z) :
  Z.of_nat (length buffer) <= i -> read buffer i = None.
Proof.
  intros H. unfold read. destruct (Z.ltb_spec i 0); [reflexivity|].
  rewrite lookup_ge_None_2 by lia. reflexivity.
Qed.

(** A read past the end decodes as 0 and as the empty signature. *)
Lemma getUint32_past_end (buffer : Uint8Array) (o : Z) :
  Z.of_nat (length buffer) <= o -> getUint32 buffer o = 0.
Proof.
  intros H. unfold getUint32. rewrite !read_past_end by lia. reflexivity.
Qed.

Lemma getSignature_past_end (buffer : Uint8Array) (o : Z) :
  Z.of_nat (length buffer) <= o -> getSignature buffer o = EmptyString.
Proof.
  intros H. unfold getSignature, subarray. cbv zeta.
  destruct (Z.ltb_spec o 0); [lia|]. destruct (Z.ltb_spec (o + 4) 0); [lia|].
  rewrite !Z.min_r by lia. rewrite Z.sub_diag. reflexivity.
Qed.

(** ** 32-bit words *)

(** What [setUint32] stores, [getUint32] reads back as a signed 32-bit
    integer. *)
Lemma getUint32_setUint32 (b : Uint8Array) (v o : Z) :
  0 <= o -> o + 4 <= Z.of_nat (length b) ->
  getUint32 (setUint32 b v o) o = to_int32 v.
Proof.
  intros Ho Hlen. unfold getUint32, setUint32. cbv zeta.
  repeat first [ rewrite read_write_eq by (rewrite ?length_write; lia)
               | rewrite read_write_ne by lia ].
  simpl int_of.
  change 256 with (2 ^ 8).
  change 0xFF000000 with (Z.shiftl (Z.ones 8) 24).
  change 0x00FF0000 with (Z.shiftl (Z.ones 8) 16).
  change 0x0000FF00 with (Z.shiftl (Z.ones 8) 8).
  change 0x000000FF with (Z.ones 8).
  unfold and, or, shl, shr.
  change (24 mod 32) with 24; change (16 mod 32) with 16; change (8 mod 32) with 8.
  apply Z.bits_inj'. intros n Hn.
  split_index n; bits_norm.
Qed.

(** ** The fields of an s15Fixed16 number *)

Lemma and_low16 (k : Z) : - 2 ^ 31 <= k < 2 ^ 31 -> and k 0x0000FFFF = k mod 2 ^ 16.
Proof.
  intros H. unfold and. rewrite to_int32_small by lia.
  change (to_int32 65535) with (Z.ones 16). apply Z.land_ones. lia.
Qed.

Lemma and_sign (k : Z) :
  - 2 ^ 31 <= k < 2 ^ 31 ->
  and k 0x80000000 = if k <? 0 then - 2 ^ 31 else 0.
Proof.
  intros H. unfold and. rewrite to_int32_small by lia.
  change (to_int32 2147483648) with (Z.lnot (Z.ones 31)).
  rewrite <- Z.ldiff_land, Z.ldiff_ones_r by lia.
  rewrite Z.shiftr_div_pow2, Z.shiftl_mul_pow2 by lia.
  destruct (Z.ltb_spec k 0).
  - replace (k / 2 ^ 31) with (-1); [lia|].
    apply Z.div_unique with (k + 2 ^ 31); lia.
  - rewrite Z.div_small; lia.
Qed.

Lemma int_part (k : Z) :
  - 2 ^ 31 <= k < 2 ^ 31 ->
  shr (and k 0x7FFF0000) 16 = (k / 2 ^ 16) mod 2 ^ 15.
Proof.
  intros H. rewrite <- (to_int32_small k) at 2 by lia.
  rewrite <- Z.shiftr_div_pow2 by lia.
  change 0x7FFF0000 with (Z.shiftl (Z.ones 15) 16).
  unfold and, shr. change (16 mod 32) with 16.
  apply Z.bits_inj'. intros n Hn.
  split_index n; bits_norm.
Qed.

Lemma neg_int_part (i : Z) :
  0 <= i < 2 ^ 15 -> not (and (not i) 0x7FFF) = i - 2 ^ 15.
Proof.
  intros H. unfold not, and.
  rewrite (to_int32_small i) by lia.
  rewrite (to_int32_small (Z.lnot i)) by (unfold Z.lnot; lia).
  change (to_int32 32767) with (Z.ones 15).
  rewrite Z.land_ones by lia.
  pose proof (Z.mod_pos_bound (Z.lnot i) (2 ^ 15) ltac:(lia)).
  rewrite to_int32_small by lia.
  replace (Z.lnot i mod 2 ^ 15) with (2 ^ 15 - 1 - i).
  - unfold Z.lnot. lia.
  - apply Z.mod_unique with (-1); unfold Z.lnot; lia.
Qed.

Lemma lor_high_low (s f : Z) :
  0 <= f < 2 ^ 16 -> Z.lor (Z.shiftl s 16) f = s * 2 ^ 16 + f.
Proof.
  intros Hf.
  assert (D : Z.land (Z.shiftl s 16) f = 0).
  { apply Z.bits_inj'; intros n Hn. rewrite Z.land_spec, Z.testbit_0_l.
    destruct (Z.lt_ge_cases n 16).
    - now rewrite Z.shiftl_spec_low by lia.
    - rewrite <- (Z.mod_small f (2 ^ 16)) by lia.
      rewrite Z.mod_pow2_bits_high by lia. apply andb_false_r. }
  rewrite <- Z.lxor_lor, <- Z.add_nocarry_lxor by exact D.
  now rewrite Z.shiftl_mul_pow2 by lia.
Qed.

(** The word [setS15Fixed16] assembles from the two halves. *)
Lemma raw_word (s f : Z) :
  - 2 ^ 15 <= s < 2 ^ 15 -> 0 <= f < 2 ^ 16 ->
  or (shl (and s 0xFFFF) 16) f = s * 2 ^ 16 + f.
Proof.
  intros Hs Hf.
  rewrite <- (to_int32_small (s * 2 ^ 16 + f)) by lia.
  rewrite <- lor_high_low by lia.
  rewrite <- (Z.mod_small f (2 ^ 16)) by lia.
  change 0xFFFF with (Z.ones 16).
  unfold and, or, shl. change (16 mod 32) with 16.
  apply Z.bits_inj'. intros n Hn.
  split_index n; bits_norm.
Qed.

Lemma Qfloor_fixed (v : Q) (k : Z) : (v == k # 65536)%Q -> Qfloor v = k / 2 ^ 16.
Proof. intros ->. reflexivity. Qed.

Lemma Qfloor_frac (v : Q) (k : Z) :
  (v == k # 65536)%Q ->
  Qfloor ((v - inject_Z (Qfloor v)) * inject_Z 0x10000) = k mod 2 ^ 16.
Proof.
  intros E. rewrite (Qfloor_fixed v k E).
  rewrite <- (Qfloor_Z (k mod 2 ^ 16)). apply Qfloor_comp.
  rewrite E. unfold Qeq, Qminus, Qplus, Qmult, Qopp, inject_Z; simpl Qnum; simpl Qden.
  pose proof (Z.div_mod k (2 ^ 16) ltac:(lia)). lia.
Qed.

(** C9.  A value [v] that is a multiple [k / 65536] of 1/65536 with
    [-32768 <= v < 32768], written by [setS15Fixed16] at an offset inside
    the buffer and read back by [getS15Fixed16] at the same offset, is
    returned exactly; negative values and [-32768] included. *)
Theorem s15Fixed16_roundtrip (buffer : Uint8Array) (v : Q) (k offset : Z) :
  (v == k # 65536)%Q ->
  (-32768 <= v)%Q -> (v < 32768)%Q ->
  0 <= offset -> offset + 4 <= Z.of_nat (length buffer) ->
  (getS15Fixed16 (setS15Fixed16 buffer v offset) offset == v)%Q.
Proof.
  intros E Hlo Hhi Ho Hlen.
  assert (Hk : - 2 ^ 31 <= k < 2 ^ 31).
  { rewrite E in Hlo, Hhi. unfold Qle, Qlt in *. simpl in *. lia. }
  pose proof (Z.div_mod k (2 ^ 16) ltac:(lia)) as Hdm.
  pose proof (Z.mod_pos_bound k (2 ^ 16) ltac:(lia)) as Hm.
  assert (Hs : - 2 ^ 15 <= k / 2 ^ 16 < 2 ^ 15) by lia.
  unfold getS15Fixed16, setS15Fixed16. cbv zeta.
  rewrite (Qfloor_frac v k E), (Qfloor_fixed v k E).
  rewrite raw_word by lia.
  replace (k / 2 ^ 16 * 2 ^ 16 + k mod 2 ^ 16) with k by lia.
  rewrite getUint32_setUint32 by lia.
  rewrite to_int32_small by lia.
  rewrite and_sign, and_low16, int_part by lia.
  pose proof (Z.mod_pos_bound (k / 2 ^ 16) (2 ^ 15) ltac:(lia)) as Hi.
  rewrite E.
  destruct (Z.ltb_spec k 0) as [Hneg|Hpos]; simpl negb; cbv iota.
  - rewrite neg_int_part by lia.
    replace ((k / 2 ^ 16) mod 2 ^ 15 - 2 ^ 15) with (k / 2 ^ 16).
    2:{ symmetry. rewrite Z.sub_move_r. symmetry. apply Z.mod_unique with (-1); lia. }
    unfold Qeq, Qplus, Qdiv, Qmult, Qinv, inject_Z; simpl Qnum; simpl Qden. lia.
  - rewrite Z.mod_small by lia.
    unfold Qeq, Qplus, Qdiv, Qmult, Qinv, inject_Z; simpl Qnum; simpl Qden. lia.
Qed.

(** The round trip at the lowest representable value, written at offset 2
    of an 8-byte buffer. *)
Lemma s15Fixed16_roundtrip_witness :
  ((-32768 # 1) == (-2147483648) # 65536)%Q /\
  (-32768 <= (-32768 # 1))%Q /\ ((-32768 # 1) < 32768)%Q /\
  0 <= 2 /\ 2 + 4 <= Z.of_nat (length (replicate 8 x00)) /\
  (getS15Fixed16 (setS15Fixed16 (replicate 8 x00) (-32768 # 1) 2) 2 == -32768 # 1)%Q.
Proof.
  assert (H1 : ((-32768 # 1) == (-2147483648) # 65536)%Q) by reflexivity.
  assert (H2 : (-32768 <= (-32768 # 1))%Q) by (vm_compute; discriminate).
  assert (H3 : ((-32768 # 1) < 32768)%Q) by reflexivity.
  assert (H4 : 0 <= 2) by lia.
  assert (H5 : 2 + 4 <= Z.of_nat (length (replicate 8 x00))) by (vm_compute; discriminate).
  split; [exact H1|]. split; [exact H2|]. split; [exact H3|].
  split; [exact H4|]. split; [exact H5|].
  exact (s15Fixed16_roundtrip (replicate 8 x00) (-32768 # 1) (-2147483648) 2
           H1 H2 H3 H4 H5).
Defined.

(** The same round trip evaluated: a negative value with a fraction. *)
Example s15Fixed16_negative_fraction :
  Qred (getS15Fixed16 (setS15Fixed16 (replicate 8 x00) (-98305 # 65536) 4) 4)
  = (-98305 # 65536)%Q.
Proof. vm_compute. reflexivity. Qed.

(* --------------------------------------------------------------------- *)
(** ** Further properties of the codec                                    *)
(* --------------------------------------------------------------------- *)

Lemma byte_to_Z_range (b : byte) : 0 <= byte_to_Z b < 256.
Proof. unfold byte_to_Z. pose proof (Byte.to_N_bounded b). lia. Qed.

Lemma read_range (buffer : Uint8Array) (i v : Z) :
  read buffer i = Some v -> 0 <= v < 256.
Proof.
  unfold read. destruct (i <? 0); [discriminate|].
  destruct (buffer !! Z.to_nat i) as [b|]; simpl; [|discriminate].
  intros [= <-]. apply byte_to_Z_range.
Qed.

Lemma int_of_read_range (buffer : Uint8Array) (i : Z) :
  0 <= int_of (read buffer i) < 256.
Proof.
  destruct (read buffer i) as [v|] eqn:E; simpl; [|lia].
  exact (read_range _ _ _ E).
Qed.

(** An integer is a 32-bit signed integer when [ToInt32] leaves it alone. *)
Lemma int32_fixed (z : Z) : to_int32 z = z -> - 2 ^ 31 <= z < 2 ^ 31.
Proof. intros <-. apply to_int32_range. Qed.

Lemma or_int32 (a b : Z) : - 2 ^ 31 <= or a b < 2 ^ 31.
Proof.
  apply int32_fixed. unfold or.
  apply Z.bits_inj'. intros n Hn.
  destruct (Z.lt_ge_cases n 31); bits_norm.
Qed.

Lemma lor_shift_add (s f k : Z) :
  0 <= k -> 0 <= f < 2 ^ k -> Z.lor (Z.shiftl s k) f = s * 2 ^ k + f.
Proof.
  intros Hk Hf.
  assert (D : Z.land (Z.shiftl s k) f = 0).
  { apply Z.bits_inj'; intros n Hn. rewrite Z.land_spec, Z.testbit_0_l.
    destruct (Z.lt_ge_cases n k).
    - now rewrite Z.shiftl_spec_low by lia.
    - rewrite <- (Z.mod_small f (2 ^ k)) by lia.
      rewrite Z.mod_pow2_bits_high by lia. apply andb_false_r. }
  rewrite <- Z.lxor_lor, <- Z.add_nocarry_lxor by exact D.
  now rewrite Z.shiftl_mul_pow2 by lia.
Qed.

(** The 16-bit word assembled from two bytes. *)
Lemma word16 (hi lo : Z) :
  0 <= hi < 256 -> 0 <= lo < 256 -> or (shl hi 8) lo = hi * 256 + lo.
Proof.
  intros Hhi Hlo. unfold or, shl. change (8 mod 32) with 8.
  rewrite (to_int32_small hi), (to_int32_small lo) by lia.
  rewrite Z.shiftl_mul_pow2 by lia.
  rewrite (to_int32_small (hi * 2 ^ 8)) by lia.
  rewrite (to_int32_small (hi * 2 ^ 8)) by lia.
  rewrite <- Z.shiftl_mul_pow2 by lia.
  rewrite lor_shift_add by lia. lia.
Qed.

Lemma getUint16_value (buffer : Uint8Array) (offset : Z) :
  getUint16 buffer offset
  = int_of (read buffer (offset + 0)) * 256 + int_of (read buffer (offset + 1)).
Proof. unfold getUint16. apply word16; apply int_of_read_range. Qed.

Lemma getUint_range (buffer : Uint8Array) (offset : Z) :
  0 <= getUint16 buffer offset < 2 ^ 16 /\
  - 2 ^ 31 <= getUint32 buffer offset < 2 ^ 31.
Proof.
  split.
  - rewrite getUint16_value.
    pose proof (int_of_read_range buffer (offset + 0)).
    pose proof (int_of_read_range buffer (offset + 1)). lia.
  - unfold getUint32. apply or_int32.
Qed.

Lemma getUint16_setUint16 (b : Uint8Array) (v o : Z) :
  0 <= o -> o + 2 <= Z.of_nat (length b) ->
  getUint16 (setUint16 b v o) o = v mod 2 ^ 16.
Proof.
  intros Ho Hlen. unfold getUint16, setUint16. cbv zeta.
  repeat first [ rewrite read_write_eq by (rewrite ?length_write; lia)
               | rewrite read_write_ne by lia ].
  simpl int_of.
  change 256 with (2 ^ 8).
  change 0xFF00 with (Z.shiftl (Z.ones 8) 8).
  change 0x00FF with (Z.ones 8).
  unfold and, or, shl, shr.
  change (8 mod 32) with 8.
  apply Z.bits_inj'. intros n Hn.
  split_index n; bits_norm.
Qed.

(** X2.  Inside the buffer, [getUint16] after [setUint16] returns the value
    modulo 2^16: every value in [[0, 2^16)] exactly. *)
Theorem uint16_roundtrip (b : Uint8Array) (v o : Z) :
  0 <= o -> o + 2 <= Z.of_nat (length b) ->
  getUint16 (setUint16 b v o) o = v mod 2 ^ 16 /\
  (0 <= v < 2 ^ 16 -> getUint16 (setUint16 b v o) o = v).
Proof.
  intros Ho Hlen. rewrite getUint16_setUint16 by assumption.
  split; [reflexivity|]. intros Hv. apply Z.mod_small. exact Hv.
Qed.

(** ** Stores touch only their own bytes *)

Lemma length_setUint16 (b : Uint8Array) (v o : Z) : length (setUint16 b v o) = length b.
Proof. unfold setUint16. cbv zeta. now rewrite !length_write. Qed.

Lemma length_setUint32 (b : Uint8Array) (v o : Z) : length (setUint32 b v o) = length b.
Proof. unfold setUint32. cbv zeta. now rewrite !length_write. Qed.

Lemma length_setS15Fixed16 (b : Uint8Array) (v : Q) (o : Z) :
  length (setS15Fixed16 b v o) = length b.
Proof. unfold setS15Fixed16. cbv zeta. apply length_setUint32. Qed.

Lemma read_setUint16_other (b : Uint8Array) (v o j : Z) :
  j < o \/ o + 2 <= j -> read (setUint16 b v o) j = read b j.
Proof.
  intros H. unfold setUint16. cbv zeta. now rewrite !read_write_ne by lia.
Qed.

Lemma read_setUint32_other (b : Uint8Array) (v o j : Z) :
  j < o \/ o + 4 <= j -> read (setUint32 b v o) j = read b j.
Proof.
  intros H. unfold setUint32. cbv zeta. now rewrite !read_write_ne by lia.
Qed.

Lemma getUint32_setUint32_other (b : Uint8Array) (v o o' : Z) :
  o' + 4 <= o \/ o + 4 <= o' ->
  getUint32 (setUint32 b v o) o' = getUint32 b o'.
Proof.
  intros H. unfold getUint32. now rewrite !read_setUint32_other by lia.
Qed.

Lemma getUint32_setUint16_other (b : Uint8Array) (v o o' : Z) :
  o' + 4 <= o \/ o + 2 <= o' ->
  getUint32 (setUint16 b v o) o' = getUint32 b o'.
Proof.
  intros H. unfold getUint32. now rewrite !read_setUint16_other by lia.
Qed.

Lemma getUint16_setUint32_other (b : Uint8Array) (v o o' : Z) :
  o' + 2 <= o \/ o + 4 <= o' ->
  getUint16 (setUint32 b v o) o' = getUint16 b o'.
Proof.
  intros H. unfold getUint16. now rewrite !read_setUint32_other by lia.
Qed.

Lemma getS15Fixed16_setS15Fixed16_other (b : Uint8Array) (v : Q) (o o' : Z) :
  o' + 4 <= o \/ o + 4 <= o' ->
  getS15Fixed16 (setS15Fixed16 b v o) o' = getS15Fixed16 b o'.
Proof.
  intros H. unfold getS15Fixed16, setS15Fixed16. cbv zeta.
  now rewrite getUint32_setUint32_other by lia.
Qed.

(** X: 32-bit *)
(** X3.  Inside the buffer, [getUint32] after [setUint32] returns a value
    below 2^31 unchanged and a value from 2^31 to 2^32 - 1 lowered by
    2^32. *)
Theorem getUint32_setUint32_signed (b : Uint8Array) (v o : Z) :
  0 <= o -> o + 4 <= Z.of_nat (length b) ->
  (0 <= v < 2 ^ 31 -> getUint32 (setUint32 b v o) o = v) /\
  (2 ^ 31 <= v < 2 ^ 32 -> getUint32 (setUint32 b v o) o = v - 2 ^ 32).
Proof.
  intros Ho Hlen. rewrite getUint32_setUint32 by assumption. split; intros Hv.
  - apply to_int32_small. lia.
  - unfold to_int32. replace (v + 2 ^ 31) with (v - 2 ^ 31 + 1 * 2 ^ 32) by lia.
    rewrite Z.mod_add by lia. rewrite Z.mod_small; lia.
Qed.

(** XYZ *)
Lemma s15Fixed16_get_set (b : Uint8Array) (v : Q) (o : Z) :
  representable v -> 0 <= o -> o + 4 <= Z.of_nat (length b) ->
  (getS15Fixed16 (setS15Fixed16 b v o) o == v)%Q.
Proof.
  intros (k & E & Hlo & Hhi) Ho Hlen.
  unfold getS15Fixed16, setS15Fixed16. cbv zeta.
  assert (Hk : - 2 ^ 31 <= k < 2 ^ 31).
  { rewrite E in Hlo, Hhi. unfold Qle, Qlt in *. simpl in *. lia. }
  pose proof (Z.div_mod k (2 ^ 16) ltac:(lia)) as Hdm.
  pose proof (Z.mod_pos_bound k (2 ^ 16) ltac:(lia)) as Hm.
  rewrite (Qfloor_frac v k E), (Qfloor_fixed v k E).
  rewrite raw_word by lia.
  replace (k / 2 ^ 16 * 2 ^ 16 + k mod 2 ^ 16) with k by lia.
  rewrite getUint32_setUint32 by lia.
  rewrite to_int32_small by lia.
  rewrite and_sign, and_low16, int_part by lia.
  pose proof (Z.mod_pos_bound (k / 2 ^ 16) (2 ^ 15) ltac:(lia)) as Hi.
  rewrite E.
  destruct (Z.ltb_spec k 0) as [Hneg|Hpos]; simpl negb; cbv iota.
  - rewrite neg_int_part by lia.
    replace ((k / 2 ^ 16) mod 2 ^ 15 - 2 ^ 15) with (k / 2 ^ 16).
    2:{ symmetry. rewrite Z.sub_move_r. symmetry. apply Z.mod_unique with (-1); lia. }
    unfold Qeq, Qplus, Qdiv, Qmult, Qinv, inject_Z; simpl Qnum; simpl Qden. lia.
  - rewrite Z.mod_small by lia.
    unfold Qeq, Qplus, Qdiv, Qmult, Qinv, inject_Z; simpl Qnum; simpl Qden. lia.
Qed.

(** X5.  Inside the buffer, [getXyz] after [setXyz] returns each of the
    three components, when they are representable s15Fixed16 numbers. *)
Theorem getXyz_setXyz (b : Uint8Array) (value : Xyz) (o : Z) :
  representable (x value) -> representable (y value) -> representable (z value) ->
  0 <= o -> o + 12 <= Z.of_nat (length b) ->
  (x (getXyz (setXyz b value o) o) == x value)%Q /\
  (y (getXyz (setXyz b value o) o) == y value)%Q /\
  (z (getXyz (setXyz b value o) o) == z value)%Q.
Proof.
  intros Hx Hy Hz Ho Hlen. unfold getXyz, setXyz. cbv zeta. simpl.
  repeat split.
  - rewrite !getS15Fixed16_setS15Fixed16_other by lia.
    apply s15Fixed16_get_set; auto; lia.
  - rewrite getS15Fixed16_setS15Fixed16_other by lia.
    apply s15Fixed16_get_set; rewrite ?length_setS15Fixed16; auto; lia.
  - apply s15Fixed16_get_set; rewrite ?length_setS15Fixed16; auto; lia.
Qed.

(** ** Unsigned fixed-point numbers *)

Lemma Qfloor_scaled (v : Q) (k : Z) (d : positive) :
  (v == k # d)%Q -> Qfloor v = k / Z.pos d.
Proof. intros ->. reflexivity. Qed.

Lemma Qfloor_frac_scaled (v : Q) (k : Z) (d : positive) :
  (v == k # d)%Q ->
  Qfloor ((v - inject_Z (k / Z.pos d)) * inject_Z (Z.pos d)) = k mod Z.pos d.
Proof.
  intros E.
  rewrite <- (Qfloor_Z (k mod Z.pos d)). apply Qfloor_comp.
  rewrite E. unfold Qeq, Qminus, Qplus, Qmult, Qopp, inject_Z; simpl Qnum; simpl Qden.
  pose proof (Z.div_mod k (Z.pos d) ltac:(lia)). nia.
Qed.

Lemma and_ones (a k : Z) :
  0 <= k < 31 -> - 2 ^ 31 <= a < 2 ^ 31 -> and a (Z.ones k) = a mod 2 ^ k.
Proof.
  intros Hk Ha. unfold and. rewrite (to_int32_small a) by lia.
  rewrite to_int32_small.
  - apply Z.land_ones. lia.
  - rewrite Z.ones_equiv.
    assert (0 < 2 ^ k <= 2 ^ 30) by (split; [lia|apply Z.pow_le_mono_r; lia]). lia.
Qed.

Lemma and_mask8 (a : Z) : - 2 ^ 31 <= a < 2 ^ 31 -> and a 0xFF = a mod 2 ^ 8.
Proof. intros H. exact (and_ones a 8 ltac:(lia) H). Qed.

Lemma and_mask15 (a : Z) : - 2 ^ 31 <= a < 2 ^ 31 -> and a 0x7FFF = a mod 2 ^ 15.
Proof. intros H. exact (and_ones a 15 ltac:(lia) H). Qed.

Lemma and_mask1 (a : Z) : - 2 ^ 31 <= a < 2 ^ 31 -> and a 0x1 = a mod 2 ^ 1.
Proof. intros H. exact (and_ones a 1 ltac:(lia) H). Qed.

(** The high part of a 16-bit word, as the getters extract it. *)
Lemma high_part (k s w : Z) :
  0 <= k < 2 ^ 16 -> 0 <= s -> 0 <= w -> s + w = 16 ->
  shr (and k (Z.shiftl (Z.ones w) s)) s = k / 2 ^ s.
Proof.
  intros Hk Hs Hw Hsw.
  assert (Hs32 : s mod 32 = s) by (apply Z.mod_small; lia).
  unfold and, shr. rewrite Hs32.
  rewrite <- Z.shiftr_div_pow2 by lia.
  rewrite <- (Z.mod_small k (2 ^ 16)) at 2 by lia.
  apply Z.bits_inj'. intros n Hn.
  destruct (Z.lt_ge_cases n w); destruct (Z.lt_ge_cases (n + s) 31); bits_norm.
Qed.

(** X7.  Inside the buffer, [getU8Fixed8] after [setU8Fixed8] returns every
    multiple of 1/256 in [[0, 256)] exactly. *)
Theorem u8Fixed8_roundtrip (b : Uint8Array) (v : Q) (k o : Z) :
  (v == k # 256)%Q -> (0 <= v)%Q -> (v < 256)%Q ->
  0 <= o -> o + 2 <= Z.of_nat (length b) ->
  (getU8Fixed8 (setU8Fixed8 b v o) o == v)%Q.
Proof.
  intros E Hlo Hhi Ho Hlen.
  assert (Hk : 0 <= k < 2 ^ 16).
  { rewrite E in Hlo, Hhi. unfold Qle, Qlt in *. simpl in *. lia. }
  pose proof (Z.div_mod k 256 ltac:(lia)) as Hdm.
  pose proof (Z.mod_pos_bound k 256 ltac:(lia)) as Hm.
  unfold getU8Fixed8, setU8Fixed8. cbv zeta.
  rewrite (Qfloor_scaled v k 256 E).
  rewrite (and_mask8 (k / 256)) by lia.
  change (2 ^ 8) with 256. rewrite (Z.mod_small (k / 256)) by lia.
  rewrite (Qfloor_frac_scaled v k 256 E).
  rewrite word16 by lia.
  replace (k / 256 * 256 + k mod 256) with k by lia.
  rewrite getUint16_setUint16 by lia.
  rewrite (Z.mod_small k) by lia.
  rewrite and_mask8 by lia.
  change 0xFF00 with (Z.shiftl (Z.ones 8) 8).
  rewrite (high_part k 8 8) by lia.
  rewrite E. change (2 ^ 8) with 256.
  unfold Qeq, Qplus, Qdiv, Qmult, Qinv, inject_Z; simpl Qnum; simpl Qden. lia.
Qed.

(** The 16-bit word assembled from a one-bit and a 15-bit part. *)
Lemma word1_15 (hi lo : Z) :
  0 <= hi < 2 -> 0 <= lo < 2 ^ 15 -> or (shl hi 15) lo = hi * 2 ^ 15 + lo.
Proof.
  intros Hhi Hlo. unfold or, shl. change (15 mod 32) with 15.
  rewrite (to_int32_small hi), (to_int32_small lo) by lia.
  rewrite Z.shiftl_mul_pow2 by lia.
  rewrite (to_int32_small (hi * 2 ^ 15)) by lia.
  rewrite (to_int32_small (hi * 2 ^ 15)) by lia.
  rewrite <- (Z.shiftl_mul_pow2 hi 15) at 1 by lia.
  rewrite lor_shift_add by lia. lia.
Qed.

(** X8.  Inside the buffer, [getU1Fixed15] after [setU1Fixed15] returns
    every multiple of 1/32768 in [[0, 2)] exactly. *)
Theorem u1Fixed15_roundtrip (b : Uint8Array) (v : Q) (k o : Z) :
  (v == k # 32768)%Q -> (0 <= v)%Q -> (v < 2)%Q ->
  0 <= o -> o + 2 <= Z.of_nat (length b) ->
  (getU1Fixed15 (setU1Fixed15 b v o) o == v)%Q.
Proof.
  intros E Hlo Hhi Ho Hlen.
  assert (Hk : 0 <= k < 2 ^ 16).
  { rewrite E in Hlo, Hhi. unfold Qle, Qlt in *. simpl in *. lia. }
  pose proof (Z.div_mod k 32768 ltac:(lia)) as Hdm.
  pose proof (Z.mod_pos_bound k 32768 ltac:(lia)) as Hm.
  unfold getU1Fixed15, setU1Fixed15. cbv zeta.
  rewrite (Qfloor_scaled v k 32768 E).
  rewrite (and_mask1 (k / 32768)) by lia.
  change (2 ^ 1) with 2. rewrite (Z.mod_small (k / 32768)) by lia.
  rewrite (Qfloor_frac_scaled v k 32768 E).
  rewrite word1_15 by lia.
  replace (k / 32768 * 2 ^ 15 + k mod 32768) with k by lia.
  rewrite getUint16_setUint16 by lia.
  rewrite (Z.mod_small k) by lia.
  rewrite and_mask15 by lia.
  change 0x8000 with (Z.shiftl (Z.ones 1) 15).
  rewrite (high_part k 15 1) by lia.
  rewrite E. change (2 ^ 15) with 32768.
  unfold Qeq, Qplus, Qdiv, Qmult, Qinv, inject_Z; simpl Qnum; simpl Qden. lia.
Qed.

(** The word [setU16Fixed16] assembles, as a 32-bit signed integer. *)
Lemma raw_word_unsigned (u f : Z) :
  0 <= u < 2 ^ 16 -> 0 <= f < 2 ^ 16 ->
  or (shl u 16) f = to_int32 (u * 2 ^ 16 + f).
Proof.
  intros Hu Hf.
  rewrite <- lor_high_low by lia.
  rewrite <- (Z.mod_small f (2 ^ 16)) by lia.
  unfold or, shl. change (16 mod 32) with 16.
  apply Z.bits_inj'. intros n Hn.
  split_index n; bits_norm.
Qed.

Lemma high_signed (k : Z) :
  - 2 ^ 31 <= k < 2 ^ 31 -> shr (and k 0xFFFF0000) 16 = k / 2 ^ 16.
Proof.
  intros H. rewrite <- (to_int32_small k) at 2 by lia.
  rewrite <- Z.shiftr_div_pow2 by lia.
  change 0xFFFF0000 with (Z.shiftl (Z.ones 16) 16).
  unfold and, shr. change (16 mod 32) with 16.
  apply Z.bits_inj'. intros n Hn.
  split_index n; bits_norm.
Qed.

Lemma setU16Fixed16_raw (b : Uint8Array) (v : Q) (k o : Z) :
  (v == k # 65536)%Q -> 0 <= k < 2 ^ 32 ->
  setU16Fixed16 b v o = setUint32 b (to_int32 k) o.
Proof.
  intros E Hk.
  pose proof (Z.div_mod k 65536 ltac:(lia)) as Hdm.
  pose proof (Z.mod_pos_bound k 65536 ltac:(lia)) as Hm.
  unfold setU16Fixed16. cbv zeta. f_equal.
  rewrite (Qfloor_scaled v k 65536 E).
  rewrite (and_low16 (k / Z.pos 65536)) by lia.
  rewrite (Z.mod_small (k / Z.pos 65536)) by lia.
  rewrite (Qfloor_frac_scaled v k 65536 E).
  rewrite raw_word_unsigned by lia.
  f_equal. lia.
Qed.

Lemma u16Fixed16_get_set (b : Uint8Array) (v : Q) (k o : Z) :
  (v == k # 65536)%Q -> 0 <= k < 2 ^ 32 ->
  0 <= o -> o + 4 <= Z.of_nat (length b) ->
  (getU16Fixed16 (setU16Fixed16 b v o) o == to_int32 k # 65536)%Q.
Proof.
  intros E Hk Ho Hlen.
  rewrite (setU16Fixed16_raw b v k o E Hk).
  unfold getU16Fixed16. cbv zeta.
  rewrite getUint32_setUint32 by lia.
  pose proof (to_int32_range k) as Hr.
  rewrite (to_int32_small (to_int32 k)) by exact Hr.
  rewrite high_signed, and_low16 by lia.
  pose proof (Z.div_mod (to_int32 k) (2 ^ 16) ltac:(lia)).
  unfold Qeq, Qplus, Qdiv, Qmult, Qinv, inject_Z; simpl Qnum; simpl Qden. lia.
Qed.

(** X6.  Inside the buffer, [getU16Fixed16] after [setU16Fixed16] returns a
    multiple [v] of 1/65536 in [[0, 65536)] exactly only below 32768; from
    32768 on it returns [v - 65536], the integer part being extracted with
    the sign-propagating shift. *)
Theorem u16Fixed16_roundtrip (b : Uint8Array) (v : Q) (k o : Z) :
  (v == k # 65536)%Q -> (0 <= v)%Q -> (v < 65536)%Q ->
  0 <= o -> o + 4 <= Z.of_nat (length b) ->
  ((v < 32768)%Q -> (getU16Fixed16 (setU16Fixed16 b v o) o == v)%Q) /\
  ((32768 <= v)%Q -> (getU16Fixed16 (setU16Fixed16 b v o) o == v - 65536)%Q).
Proof.
  intros E Hlo Hhi Ho Hlen.
  assert (Hk : 0 <= k < 2 ^ 32).
  { rewrite E in Hlo, Hhi. unfold Qle, Qlt in *. simpl in *. lia. }
  rewrite (u16Fixed16_get_set b v k o E Hk Ho Hlen). split; intros Hv.
  - rewrite to_int32_small; [now symmetry|].
    rewrite E in Hv. unfold Qlt in Hv. simpl in Hv. lia.
  - assert (2 ^ 31 <= k) by (rewrite E in Hv; unfold Qle in Hv; simpl in Hv; lia).
    replace (to_int32 k) with (k - 2 ^ 32).
    + rewrite E. unfold Qeq, Qminus, Qplus, Qopp; simpl Qnum; simpl Qden. lia.
    + unfold to_int32. replace (k + 2 ^ 31) with (k - 2 ^ 31 + 1 * 2 ^ 32) by lia.
      rewrite Z.mod_add by lia. rewrite Z.mod_small; lia.
Qed.

Lemma length_setUint64 (b : Uint8Array) (v o : Z) : length (setUint64 b v o) = length b.
Proof. unfold setUint64. cbv zeta. now rewrite !length_write. Qed.

(** X4.  Inside the buffer, [getUint64] after [setUint64] returns the value
    modulo 2^64: every value in [[0, 2^64)] exactly, without the sign
    wrap of the 32-bit reader. *)
Theorem getUint64_setUint64 (b : Uint8Array) (v o : Z) :
  0 <= o -> o + 8 <= Z.of_nat (length b) ->
  getUint64 (setUint64 b v o) o = inr (v mod 2 ^ 64).
Proof.
  intros Ho Hlen. unfold getUint64, setUint64. cbv zeta beta.
  repeat first [ rewrite read_write_eq by (rewrite ?length_write; lia)
               | rewrite read_write_ne by lia ].
  cbn [BigInt Js.bind ret]. f_equal.
  change 256 with (2 ^ 8).
  change 0xFF00000000000000 with (Z.shiftl (Z.ones 8) 56).
  change 0x00FF000000000000 with (Z.shiftl (Z.ones 8) 48).
  change 0x0000FF0000000000 with (Z.shiftl (Z.ones 8) 40).
  change 0x000000FF00000000 with (Z.shiftl (Z.ones 8) 32).
  change 0x00000000FF000000 with (Z.shiftl (Z.ones 8) 24).
  change 0x0000000000FF0000 with (Z.shiftl (Z.ones 8) 16).
  change 0x000000000000FF00 with (Z.shiftl (Z.ones 8) 8).
  change 0x00000000000000FF with (Z.ones 8).
  apply Z.bits_inj'. intros n Hn.
  destruct (Z.lt_ge_cases n 8); [bits_norm|].
  destruct (Z.lt_ge_cases n 16); [bits_norm|].
  destruct (Z.lt_ge_cases n 24); [bits_norm|].
  destruct (Z.lt_ge_cases n 32); [bits_norm|].
  destruct (Z.lt_ge_cases n 40); [bits_norm|].
  destruct (Z.lt_ge_cases n 48); [bits_norm|].
  destruct (Z.lt_ge_cases n 56); [bits_norm|].
  destruct (Z.lt_ge_cases n 64); bits_norm.
Qed.

(** ** Signatures *)

Lemma ascii_byte_roundtrip (c : Ascii.ascii) :
  Ascii.ascii_of_byte (byte_of_Z (Z.of_N (Ascii.N_of_ascii c))) = c.
Proof.
  unfold byte_of_Z, to_uint8.
  pose proof (Ascii.N_ascii_bounded c) as Hc.
  rewrite Z.mod_small by lia. rewrite N2Z.id.
  destruct (Byte.of_N (Ascii.N_of_ascii c)) as [b|] eqn:E.
  - simpl. rewrite Ascii.ascii_of_byte_via_N.
    apply Byte.to_of_N in E. rewrite E. apply Ascii.ascii_N_embedding.
  - apply Byte.of_N_None_iff in E. lia.
Qed.

Lemma length_setSignatureLoop (chars : list Ascii.ascii) (b : Uint8Array) (o i : Z) :
  length (setSignatureLoop b chars o i) = length b.
Proof.
  revert b i. induction chars as [|c chars IH]; intros b i; simpl; [reflexivity|].
  rewrite IH. apply length_write.
Qed.

Lemma lookup_write (b : Uint8Array) (i v : Z) (j : nat) :
  0 <= i < Z.of_nat (length b) ->
  write b i v !! j = if decide (j = Z.to_nat i) then Some (byte_of_Z v) else b !! j.
Proof.
  intros H. unfold write. destruct (Z.ltb_spec i 0); [lia|].
  destruct (decide (j = Z.to_nat i)) as [->|Hne].
  - apply list_lookup_insert_eq. lia.
  - apply list_lookup_insert_ne. auto.
Qed.

Lemma setSignatureLoop_lookup (chars : list Ascii.ascii) (b : Uint8Array) (o i : Z) (j : nat) :
  0 <= o + i -> o + i + Z.of_nat (length chars) <= Z.of_nat (length b) ->
  setSignatureLoop b chars o i !! j =
  if decide (Z.to_nat (o + i) <= j < Z.to_nat (o + i) + length chars)%nat
  then (fun c => byte_of_Z (Z.of_N (Ascii.N_of_ascii c))) <$> chars !! (j - Z.to_nat (o + i))%nat
  else b !! j.
Proof.
  revert b i. induction chars as [|c chars IH]; intros b i Hlo Hhi; simpl in *.
  - destruct (decide _); [lia|reflexivity].
  - rewrite IH by (rewrite ?length_write; lia).
    replace (Z.to_nat (o + (i + 1))) with (S (Z.to_nat (o + i))) by lia.
    destruct (decide (S (Z.to_nat (o + i)) <= j < S (Z.to_nat (o + i)) + length chars)%nat)
      as [Hin|Hout].
    + destruct (decide _); [|lia].
      replace (j - Z.to_nat (o + i))%nat with (S (j - S (Z.to_nat (o + i)))) by lia.
      reflexivity.
    + rewrite lookup_write by lia.
      destruct (decide (j = Z.to_nat (o + i))) as [->|Hne].
      * destruct (decide _); [|lia]. now rewrite Nat.sub_diag.
      * destruct (decide _); [lia|reflexivity].
Qed.

Lemma length_list_ascii (s : string) :
  length (String.list_ascii_of_string s) = String.length s.
Proof. induction s as [|c s IH]; simpl; [reflexivity|]. now rewrite IH. Qed.

(** X9.  Inside the buffer, [getSignature] after [setSignature] returns a
    four-character signature unchanged. *)
Theorem getSignature_setSignature (b : Uint8Array) (value : string) (o : Z) :
  String.length value = 4%nat ->
  0 <= o -> o + 4 <= Z.of_nat (length b) ->
  getSignature (setSignature b value o) o = value.
Proof.
  intros Hlen Ho Hb.
  unfold getSignature, setSignature, subarray, fromCharCode. cbv zeta.
  rewrite length_setSignatureLoop.
  destruct (Z.ltb_spec o 0); [lia|]. destruct (Z.ltb_spec (o + 4) 0); [lia|].
  rewrite !Z.min_l by lia.
  replace (Z.to_nat (o + 4 - o)) with 4%nat by lia.
  rewrite <- (String.string_of_list_ascii_of_string value) at 2.
  f_equal.
  assert (Hl : length (String.list_ascii_of_string value) = 4%nat).
  { rewrite <- Hlen. apply length_list_ascii. }
  apply list_eq. intros j.
  rewrite list_lookup_fmap, lookup_take, lookup_drop.
  destruct (decide (j < 4)%nat) as [Hj|Hj].
  - rewrite setSignatureLoop_lookup by (rewrite ?Hl; lia).
    rewrite Z.add_0_r, Hl.
    destruct (decide _); [|lia].
    replace (Z.to_nat o + j - Z.to_nat o)%nat with j by lia.
    destruct (String.list_ascii_of_string value !! j) as [c|]; simpl; [|reflexivity].
    now rewrite ascii_byte_roundtrip.
  - simpl. symmetry. apply lookup_ge_None_2. lia.
Qed.

(** ** Outside the buffer *)

Lemma write_past_end (buffer : Uint8Array) (i v : Z) :
  Z.of_nat (length buffer) <= i -> write buffer i v = buffer.
Proof.
  intros H. unfold write. destruct (Z.ltb_spec i 0); [reflexivity|].
  apply list_insert_ge. lia.
Qed.

Lemma read_Some (buffer : Uint8Array) (i v : Z) :
  read buffer i = Some v -> 0 <= i < Z.of_nat (length buffer).
Proof.
  unfold read. destruct (Z.ltb_spec i 0); [discriminate|].
  intros Hv. apply fmap_Some in Hv as (c & Hc & _).
  apply lookup_lt_Some in Hc. lia.
Qed.

(** [getUint64] throws as soon as one of its eight bytes lies outside the
    buffer, and returns otherwise. *)
Lemma getUint64_throws (buffer : Uint8Array) (o : Z) :
  o < 0 \/ Z.of_nat (length buffer) < o + 8 ->
  getUint64 buffer o = inl TypeErrorBigInt.
Proof.
  intros H. unfold getUint64.
  repeat match goal with
  | |- context [BigInt (read ?b ?i)] =>
      let E := fresh "E" in
      destruct (read b i) eqn:E; cbn [BigInt Js.bind ret throw]; [|reflexivity]
  end.
  repeat match goal with
  | E : read _ _ = Some _ |- _ => apply read_Some in E
  end. lia.
Qed.

Lemma read_None (buffer : Uint8Array) (i : Z) :
  read buffer i = None -> i < 0 \/ Z.of_nat (length buffer) <= i.
Proof.
  unfold read. destruct (Z.ltb_spec i 0); [lia|].
  intros Hv. apply fmap_None in Hv. apply lookup_ge_None in Hv. lia.
Qed.

Lemma getUint64_returns (buffer : Uint8Array) (o : Z) :
  0 <= o -> o + 8 <= Z.of_nat (length buffer) ->
  exists n : Z, getUint64 buffer o = inr n.
Proof.
  intros Ho Hlen. unfold getUint64.
  repeat match goal with
  | |- context [BigInt (read ?b ?i)] =>
      let E := fresh "E" in
      destruct (read b i) eqn:E; cbn [BigInt Js.bind ret throw];
      [|apply read_None in E; lia]
  end.
  eexists. reflexivity.
Qed.

(** X10.  At an offset at or past the end of the buffer the readers built
    on the bitwise operators do not fail and return 0 (the empty string
    for a signature); [getUint64], which converts each byte with
    [BigInt], throws a [TypeError]; the writers leave the buffer as it
    is. *)
Theorem access_past_end (buffer : Uint8Array) (o v : Z) (q : Q) :
  Z.of_nat (length buffer) <= o ->
  (getUint16 buffer o = 0 /\ getUint32 buffer o = 0 /\
   (getS15Fixed16 buffer o == 0)%Q /\ getSignature buffer o = EmptyString) /\
  getUint64 buffer o = inl TypeErrorBigInt /\
  (setUint16 buffer v o = buffer /\ setUint32 buffer v o = buffer /\
   setUint64 buffer v o = buffer /\ setS15Fixed16 buffer q o = buffer).
Proof.
  intros H. split; [|split; [|split; [|split; [|split]]]].
  - split; [|split; [|split]].
    + unfold getUint16. rewrite !read_past_end by lia. reflexivity.
    + apply getUint32_past_end. lia.
    + unfold getS15Fixed16. cbv zeta. rewrite getUint32_past_end by lia. reflexivity.
    + apply getSignature_past_end. lia.
  - apply getUint64_throws. lia.
  - unfold setUint16. cbv zeta. now rewrite !write_past_end by (rewrite ?length_write; lia).
  - unfold setUint32. cbv zeta. now rewrite !write_past_end by (rewrite ?length_write; lia).
  - unfold setUint64. cbv zeta. now rewrite !write_past_end by (rewrite ?length_write; lia).
  - unfold setS15Fixed16, setUint32. cbv zeta. now rewrite !write_past_end by (rewrite ?length_write; lia).
Qed.

Lemma read_setUint64_other (b : Uint8Array) (v o j : Z) :
  j < o \/ o + 8 <= j -> read (setUint64 b v o) j = read b j.
Proof.
  intros H. unfold setUint64. cbv zeta. now rewrite !read_write_ne by lia.
Qed.

Lemma read_setS15Fixed16_other (b : Uint8Array) (v : Q) (o j : Z) :
  j < o \/ o + 4 <= j -> read (setS15Fixed16 b v o) j = read b j.
Proof. intros H. unfold setS15Fixed16. cbv zeta. now apply read_setUint32_other. Qed.

Lemma length_setXyz (b : Uint8Array) (v : Xyz) (o : Z) : length (setXyz b v o) = length b.
Proof. unfold setXyz. cbv zeta. now rewrite !length_setS15Fixed16. Qed.

Lemma read_setXyz_other (b : Uint8Array) (v : Xyz) (o j : Z) :
  j < o \/ o + 12 <= j -> read (setXyz b v o) j = read b j.
Proof.
  intros H. unfold setXyz. cbv zeta. now rewrite !read_setS15Fixed16_other by lia.
Qed.

(** X11.  The writers never resize the buffer and change only their own
    bytes: two for [setUint16], four for [setUint32], eight for
    [setUint64], twelve for [setXyz]. *)
Theorem setters_frame (b : Uint8Array) (v o j : Z) (value : Xyz) :
  (length (setUint16 b v o) = length b /\
   length (setUint32 b v o) = length b /\
   length (setUint64 b v o) = length b /\
   length (setXyz b value o) = length b) /\
  (j < o \/ o + 2 <= j -> read (setUint16 b v o) j = read b j) /\
  (j < o \/ o + 4 <= j -> read (setUint32 b v o) j = read b j) /\
  (j < o \/ o + 8 <= j -> read (setUint64 b v o) j = read b j) /\
  (j < o \/ o + 12 <= j -> read (setXyz b value o) j = read b j).
Proof.
  split; [|split; [|split; [|split]]].
  - split; [|split; [|split]].
    + apply length_setUint16.
    + apply length_setUint32.
    + apply length_setUint64.
    + apply length_setXyz.
  - apply read_setUint16_other.
  - apply read_setUint32_other.
  - apply read_setUint64_other.
  - apply read_setXyz_other.
Qed.

(** ** Composite numbers *)

Lemma getUint16_setS15Fixed16_other (b : Uint8Array) (v : Q) (o o' : Z) :
  o' + 2 <= o \/ o + 4 <= o' ->
  getUint16 (setS15Fixed16 b v o) o' = getUint16 b o'.
Proof.
  intros H. unfold setS15Fixed16. cbv zeta. now apply getUint16_setUint32_other.
Qed.

(** X12.  Inside the buffer, [getResponseNumber] after [setResponseNumber]
    returns the device value (a 16-bit number at the offset) and the
    measurement (a representable s15Fixed16 number four bytes further). *)
Theorem getResponseNumber_setResponseNumber (b : Uint8Array) (value : ResponseNumber) (o : Z) :
  0 <= device value < 2 ^ 16 -> representable (measurement value) ->
  0 <= o -> o + 8 <= Z.of_nat (length b) ->
  device (getResponseNumber (setResponseNumber b value o) o) = device value /\
  (measurement (getResponseNumber (setResponseNumber b value o) o)
   == measurement value)%Q.
Proof.
  intros Hd Hm Ho Hlen. unfold getResponseNumber, setResponseNumber. cbv zeta. simpl.
  split.
  - rewrite getUint16_setS15Fixed16_other by lia.
    rewrite getUint16_setUint16 by lia. apply Z.mod_small. lia.
  - apply s15Fixed16_get_set; rewrite ?length_setUint16; auto; lia.
Qed.

(** X13.  Inside the buffer, [getPositionNumber] after [setPositionNumber]
    returns an offset and a size below 2^31 unchanged. *)
Theorem getPositionNumber_setPositionNumber (b : Uint8Array) (value : PositionNumber) (o : Z) :
  0 <= pos_offset value < 2 ^ 31 -> 0 <= pos_size value < 2 ^ 31 ->
  0 <= o -> o + 8 <= Z.of_nat (length b) ->
  getPositionNumber (setPositionNumber b value o) o = value.
Proof.
  intros H1 H2 Ho Hlen. destruct value as [po ps]. simpl in *.
  unfold getPositionNumber, setPositionNumber. cbv zeta. simpl.
  rewrite getUint32_setUint32_other by lia.
  rewrite !getUint32_setUint32 by (rewrite ?length_setUint32; lia).
  now rewrite !to_int32_small by lia.
Qed.

(** The 32-bit word assembled from four bytes. *)
Lemma word32 (b0 b1 b2 b3 : Z) :
  0 <= b0 < 256 -> 0 <= b1 < 256 -> 0 <= b2 < 256 -> 0 <= b3 < 256 ->
  or (or (or (shl b0 24) (shl b1 16)) (shl b2 8)) b3
  = to_int32 (b0 * 2 ^ 24 + b1 * 2 ^ 16 + b2 * 2 ^ 8 + b3).
Proof.
  intros H0 H1 H2 H3.
  replace (b0 * 2 ^ 24 + b1 * 2 ^ 16 + b2 * 2 ^ 8 + b3)
    with (Z.lor (Z.shiftl (Z.lor (Z.shiftl (Z.lor (Z.shiftl b0 8) b1) 8) b2) 8) b3).
  2:{ rewrite !lor_shift_add by (rewrite ?lor_shift_add by lia; lia). lia. }
  rewrite <- (Z.mod_small b0 (2 ^ 8)), <- (Z.mod_small b1 (2 ^ 8)),
          <- (Z.mod_small b2 (2 ^ 8)), <- (Z.mod_small b3 (2 ^ 8)) by lia.
  unfold or, shl.
  change (24 mod 32) with 24; change (16 mod 32) with 16; change (8 mod 32) with 8.
  apply Z.bits_inj'. intros n Hn.
  split_index n; bits_norm.
Qed.

(** X1.  [getUint16] and [getUint32] decode big-endian, a byte outside the
    buffer counting as 0: [getUint16] is [b0 * 2^8 + b1], in [[0, 2^16)];
    [getUint32] is the four-byte value [u] read as a signed 32-bit
    integer, [u] below 2^31 and [u - 2^32] from 2^31 on, so it is never
    above [2^31 - 1]. *)
Theorem getUint_decode (buffer : Uint8Array) (offset : Z) :
  let b (i : Z) := int_of (read buffer (offset + i)) in
  let u := b 0 * 2 ^ 24 + b 1 * 2 ^ 16 + b 2 * 2 ^ 8 + b 3 in
  getUint16 buffer offset = b 0 * 2 ^ 8 + b 1 /\
  getUint32 buffer offset = (if u <? 2 ^ 31 then u else u - 2 ^ 32) /\
  0 <= getUint16 buffer offset < 2 ^ 16 /\
  - 2 ^ 31 <= getUint32 buffer offset < 2 ^ 31.
Proof.
  cbv zeta.
  pose proof (int_of_read_range buffer (offset + 0)) as H0.
  pose proof (int_of_read_range buffer (offset + 1)) as H1.
  pose proof (int_of_read_range buffer (offset + 2)) as H2.
  pose proof (int_of_read_range buffer (offset + 3)) as H3.
  repeat split; try apply getUint_range.
  - rewrite getUint16_value. lia.
  - unfold getUint32. rewrite word32 by assumption.
    set (u := _ + _ + _ + int_of _).
    assert (Hu : 0 <= u < 2 ^ 32) by (unfold u; lia).
    destruct (Z.ltb_spec u (2 ^ 31)).
    + apply to_int32_small. lia.
    + unfold to_int32. replace (u + 2 ^ 31) with (u - 2 ^ 31 + 1 * 2 ^ 32) by lia.
      rewrite Z.mod_add by lia. rewrite Z.mod_small; lia.
Qed.

(** ** The round trips on a 16-byte buffer *)

Lemma uint16_roundtrip_witness :
  getUint16 (setUint16 (replicate 16 x00) 0xBEEF 3) 3 = 0xBEEF mod 2 ^ 16 /\
  (0 <= 0xBEEF < 2 ^ 16 -> getUint16 (setUint16 (replicate 16 x00) 0xBEEF 3) 3 = 0xBEEF).
Proof.
  apply (uint16_roundtrip (replicate 16 x00) 0xBEEF 3); [lia|vm_compute; discriminate].
Defined.

Lemma getUint32_setUint32_signed_witness :
  getUint32 (setUint32 (replicate 16 x00) 0x80000001 4) 4 = 0x80000001 - 2 ^ 32.
Proof.
  apply (getUint32_setUint32_signed (replicate 16 x00) 0x80000001 4);
    [lia|vm_compute; discriminate|lia].
Defined.

Lemma getUint64_setUint64_witness :
  getUint64 (setUint64 (replicate 16 x00) 0xFEDCBA9876543210 8) 8
  = inr (0xFEDCBA9876543210 mod 2 ^ 64).
Proof.
  apply (getUint64_setUint64 (replicate 16 x00) 0xFEDCBA9876543210 8);
    [lia|vm_compute; discriminate].
Defined.

Lemma representable_half : representable (1 # 2).
Proof.
  exists 32768. split; [reflexivity|]. split; [vm_compute; discriminate|reflexivity].
Qed.

Lemma representable_minus_one : representable (-1 # 1).
Proof.
  exists (-65536). split; [reflexivity|]. split; [vm_compute; discriminate|reflexivity].
Qed.

Lemma getXyz_setXyz_witness :
  let value := mkXyz (1 # 2) (-1 # 1) (1 # 2) in
  (x (getXyz (setXyz (replicate 16 x00) value 2) 2) == 1 # 2)%Q /\
  (y (getXyz (setXyz (replicate 16 x00) value 2) 2) == -1 # 1)%Q /\
  (z (getXyz (setXyz (replicate 16 x00) value 2) 2) == 1 # 2)%Q.
Proof.
  apply (getXyz_setXyz (replicate 16 x00) (mkXyz (1 # 2) (-1 # 1) (1 # 2)) 2);
    [exact representable_half|exact representable_minus_one|exact representable_half
    |lia|vm_compute; discriminate].
Defined.

Lemma u16Fixed16_roundtrip_witness :
  ((40000 # 1 < 32768)%Q ->
   (getU16Fixed16 (setU16Fixed16 (replicate 16 x00) (40000 # 1) 0) 0 == 40000 # 1)%Q) /\
  ((32768 <= 40000 # 1)%Q ->
   (getU16Fixed16 (setU16Fixed16 (replicate 16 x00) (40000 # 1) 0) 0
    == (40000 # 1) - 65536)%Q).
Proof.
  apply (u16Fixed16_roundtrip (replicate 16 x00) (40000 # 1) (40000 * 65536) 0);
    [reflexivity|vm_compute; discriminate|reflexivity|lia|vm_compute; discriminate].
Defined.

Lemma u8Fixed8_roundtrip_witness :
  (getU8Fixed8 (setU8Fixed8 (replicate 16 x00) (563 # 256) 0) 0 == 563 # 256)%Q.
Proof.
  apply (u8Fixed8_roundtrip (replicate 16 x00) (563 # 256) 563 0);
    [reflexivity|vm_compute; discriminate|reflexivity|lia|vm_compute; discriminate].
Defined.

Lemma u1Fixed15_roundtrip_witness :
  (getU1Fixed15 (setU1Fixed15 (replicate 16 x00) (49152 # 32768) 0) 0 == 49152 # 32768)%Q.
Proof.
  apply (u1Fixed15_roundtrip (replicate 16 x00) (49152 # 32768) 49152 0);
    [reflexivity|vm_compute; discriminate|reflexivity|lia|vm_compute; discriminate].
Defined.

Lemma getSignature_setSignature_witness :
  getSignature (setSignature (replicate 16 x00) "mntr" 12) 12 = "mntr".
Proof.
  apply (getSignature_setSignature (replicate 16 x00) "mntr" 12);
    [reflexivity|lia|vm_compute; discriminate].
Defined.

Lemma access_past_end_witness :
  (getUint16 (replicate 16 x00) 16 = 0 /\ getUint32 (replicate 16 x00) 16 = 0 /\
   (getS15Fixed16 (replicate 16 x00) 16 == 0)%Q /\
   getSignature (replicate 16 x00) 16 = EmptyString) /\
  getUint64 (replicate 16 x00) 16 = inl TypeErrorBigInt /\
  (setUint16 (replicate 16 x00) 7 16 = replicate 16 x00 /\
   setUint32 (replicate 16 x00) 7 16 = replicate 16 x00 /\
   setUint64 (replicate 16 x00) 7 16 = replicate 16 x00 /\
   setS15Fixed16 (replicate 16 x00) (1 # 2) 16 = replicate 16 x00).
Proof.
  apply (access_past_end (replicate 16 x00) 16 7 (1 # 2)). vm_compute. discriminate.
Defined.

Lemma setters_frame_witness :
  read (setUint32 (replicate 16 x00) 0xFFFFFFFF 4) 8 = read (replicate 16 x00) 8.
Proof.
  destruct (setters_frame (replicate 16 x00) 0xFFFFFFFF 4 8 (mkXyz 0 0 0))
    as (_ & _ & H & _).
  apply H. lia.
Defined.

Lemma getResponseNumber_setResponseNumber_witness :
  let value := mkResponseNumber 513 (1 # 2) in
  device (getResponseNumber (setResponseNumber (replicate 16 x00) value 1) 1) = 513 /\
  (measurement (getResponseNumber (setResponseNumber (replicate 16 x00) value 1) 1)
   == 1 # 2)%Q.
Proof.
  apply (getResponseNumber_setResponseNumber (replicate 16 x00)
           (mkResponseNumber 513 (1 # 2)) 1);
    [simpl; lia|exact representable_half|lia|vm_compute; discriminate].
Defined.

Lemma getPositionNumber_setPositionNumber_witness :
  getPositionNumber (setPositionNumber (replicate 16 x00) (mkPositionNumber 132 20) 0) 0
  = mkPositionNumber 132 20.
Proof.
  apply (getPositionNumber_setPositionNumber (replicate 16 x00)
           (mkPositionNumber 132 20) 0);
    [simpl; lia|simpl; lia|lia|vm_compute; discriminate].
Defined.

End DatatypeFacts.

(* ===================================================================== *)
(** * Properties of the header and tag-table readers                       *)
(* ===================================================================== *)

Module HeaderFacts.
Import Js Datatype Header Inputs DatatypeFacts.
#[local] Open Scope Z_scope.

(** [getHeader] throws on a buffer shorter than 64 bytes, whatever
    [offset] is, and returns a header on any other. *)
Lemma getHeader_throws (buffer : Uint8Array) (offset : Z) :
  (length buffer < 64)%nat -> getHeader buffer offset = inl TypeErrorBigInt.
Proof.
  intros H. unfold getHeader. cbv zeta.
  rewrite getUint64_throws by lia. reflexivity.
Qed.

Lemma getHeader_returns (buffer : Uint8Array) (offset : Z) :
  (64 <= length buffer)%nat -> exists h : IccHeader, getHeader buffer offset = inr h.
Proof.
  intros H. unfold getHeader. cbv zeta.
  destruct (getUint64_returns buffer 56) as [n ->]; [lia|lia|].
  eexists. reflexivity.
Qed.

(** From the profile class on, [getHeader] reads every field at an offset
    counted from the start of the buffer, whatever [offset] is. *)
Lemma getHeader_fixed_fields (buffer : Uint8Array) (offset : Z) (h : IccHeader) :
  getHeader buffer offset = inr h ->
  profileClass h = getSignature buffer 12 /\
  profileSpace h = getSignature buffer 16 /\
  pcsSpace h = getSignature buffer 20 /\
  creationDate h = getDatetime buffer 24 /\
  creationPlatform h = getSignature buffer 40 /\
  profileFlags h = getUint32 buffer 44 /\
  (exists n : Z, getUint64 buffer 56 = inr n /\ deviceAttributes h = Number n) /\
  renderingIntent h = getUint32 buffer 64 /\
  pcsWhitePoint h = getXyz buffer 68.
Proof.
  unfold getHeader. cbv zeta.
  destruct (getUint64 buffer 56) as [e|n]; cbn [Js.bind ret]; [discriminate|].
  intros [= <-]. repeat split. eauto.
Qed.

(** [Number] keeps an integer of magnitude below 2^53 and rounds a larger
    one to 53 significant bits. *)
Lemma Number_exact (n : Z) : - 2 ^ 53 < n < 2 ^ 53 -> Number n = n.
Proof.
  intros H. unfold Number. cbv zeta.
  destruct (Z.leb_spec (Z.log2 (Z.abs n) - 52) 0) as [_|He]; [reflexivity|].
  exfalso. destruct (Z.eq_dec n 0) as [->|Hn]; [simpl in He; lia|].
  assert (Hlog : Z.log2 (Z.abs n) < 53) by (apply Z.log2_lt_pow2; lia). lia.
Qed.

Example Number_rounds :
  Number (2 ^ 53 + 1) = 2 ^ 53 /\ Number (2 ^ 53 + 3) = 2 ^ 53 + 4 /\
  Number (2 ^ 64 - 1) = 2 ^ 64.
Proof. repeat split. Qed.

(** C2, evaluated.  [embedded] holds the 128 bytes of [mntrHeader] from
    byte 128 on.  Parsed alone at 0 the header has class ["mntr"] and
    colour space ["RGB "]; parsed in place at 128 the class and the colour
    space come from bytes 12 and 16 of the surrounding data instead, so the
    two headers differ. *)
Theorem getHeader_embedded :
  subarray embedded 128 256 = mntrHeader /\
  exists alone inPlace : IccHeader,
    getHeader mntrHeader 0 = inr alone /\
    getHeader embedded 128 = inr inPlace /\
    profileClass alone = "mntr" /\
    profileSpace alone = "RGB " /\
    profileClass inPlace = "AAAA" /\
    profileSpace inPlace = "AAAA" /\
    inPlace <> alone /\
    getHeader embedded 128 <> getHeader mntrHeader 0.
Proof.
  split; [vm_compute; reflexivity|].
  destruct (getHeader_returns mntrHeader 0) as [alone Ha]; [vm_compute; lia|].
  destruct (getHeader_returns embedded 128) as [inPlace Hi]; [vm_compute; lia|].
  exists alone, inPlace. rewrite Ha, Hi.
  destruct (getHeader_fixed_fields _ _ _ Ha) as (Hc & Hs & _).
  destruct (getHeader_fixed_fields _ _ _ Hi) as (Hc' & Hs' & _).
  assert (Hne : inPlace <> alone).
  { intros ->. rewrite Hc in Hc'. vm_compute in Hc'. discriminate. }
  repeat split; try (rewrite ?Hc, ?Hs, ?Hc', ?Hs'; vm_compute; reflexivity).
  - exact Hne.
  - intros [= H]. exact (Hne H).
Qed.

End HeaderFacts.

Module TagFacts.
Import Js Datatype Tag Notions Inputs DatatypeFacts.
#[local] Open Scope Z_scope.

(** ** The loop of [getTagTable] *)

Lemma parsers_known (typeSignature : string) parser :
  tagDataParsers typeSignature = Some parser ->
  parser = parseXyz \/ parser = parseCurv \/ parser = parseChrm.
Proof.
  unfold tagDataParsers.
  repeat (destruct (String.eqb typeSignature _); [intros [= <-]; auto|]).
  discriminate.
Qed.

Lemma parser_throws (typeSignature : string) parser (buffer : Uint8Array) (o s : Z)
    (e : JsError) :
  tagDataParsers typeSignature = Some parser ->
  parser buffer o s = inl e -> e = RangeError.
Proof.
  intros Hp. destruct (parsers_known _ _ Hp) as [-> | [-> | ->]].
  - discriminate.
  - unfold parseCurv. cbv zeta. destruct (_ <? 0); [|discriminate]. now intros [= <-].
  - discriminate.
Qed.

(** One iteration throws a [RangeError] or files under the signature of
    slot [i] a tag that the slot describes. *)
Lemma tagTableStep_spec (buffer : Uint8Array) (start offset i : Z) (table : IccTagTable) :
  match tagTableStep buffer start offset i table with
  | inl e => e = RangeError
  | inr table' =>
      exists tag : Tag,
        describes buffer start offset i tag /\
        table' = <[getSignature buffer (start + offset + 4 + i * 12 + 0) := tag]> table
  end.
Proof.
  unfold tagTableStep, describes. cbv zeta.
  set (sig := getSignature buffer (start + offset + 4 + i * 12 + 0)).
  set (tagOffset := getUint32 buffer (start + offset + 4 + i * 12 + 4)).
  set (tagSize := getUint32 buffer (start + offset + 4 + i * 12 + 8)).
  destruct (tagDataParsers (getSignature buffer (start + tagOffset))) as [parser|] eqn:Hp.
  - destruct (parser buffer (start + tagOffset) tagSize) as [e|d] eqn:Hd; simpl.
    + exact (parser_throws _ _ _ _ _ _ Hp Hd).
    + exists (mkTag sig tagOffset tagSize (Some d)). simpl. rewrite Hp.
      split; [|now rewrite insert_insert_eq]. repeat split; try reflexivity. eauto.
  - simpl. exists (mkTag sig tagOffset tagSize None). simpl. rewrite Hp. auto.
Qed.

(** The loop invariant: an entry of the result comes from the last slot
    of the remaining ones that bears its key, or from the table the loop
    started with when no remaining slot bears it. *)
Lemma tagTableLoop_spec (buffer : Uint8Array) (start offset : Z) (n : nat) :
  forall (i0 : Z) (table : IccTagTable),
  match tagTableLoop buffer start offset i0 n table with
  | inl e => e = RangeError
  | inr table' =>
      forall key : string,
        match table' !! key with
        | Some tag =>
            (exists i : Z,
               i0 <= i < i0 + Z.of_nat n /\ describes buffer start offset i tag /\
               signature tag = key /\
               forall j : Z, i < j < i0 + Z.of_nat n ->
                 getSignature buffer (start + offset + 4 + j * 12 + 0) <> key) \/
            (table !! key = Some tag /\
             forall j : Z, i0 <= j < i0 + Z.of_nat n ->
               getSignature buffer (start + offset + 4 + j * 12 + 0) <> key)
        | None =>
            table !! key = None /\
            forall j : Z, i0 <= j < i0 + Z.of_nat n ->
              getSignature buffer (start + offset + 4 + j * 12 + 0) <> key
        end
  end.
Proof.
  induction n as [|n IH]; intros i0 table; simpl tagTableLoop.
  - intros key. destruct (table !! key) as [tag|] eqn:E.
    + right. split; [reflexivity|]. intros j Hj. lia.
    + split; [reflexivity|]. intros j Hj. lia.
  - pose proof (tagTableStep_spec buffer start offset i0 table) as Hstep.
    destruct (tagTableStep buffer start offset i0 table) as [e|table1]; simpl; [exact Hstep|].
    destruct Hstep as (tag0 & Hd0 & ->).
    specialize (IH (i0 + 1)
                  (<[getSignature buffer (start + offset + 4 + i0 * 12 + 0) := tag0]> table)).
    destruct (tagTableLoop _ _ _ _ _ _) as [e|table']; [exact IH|].
    intros key. specialize (IH key).
    destruct (table' !! key) as [tag|].
    + destruct IH as [(i & Hi & Hd & Hs & Hlast)|(Hin & Hnone)].
      * left. exists i. split; [lia|]. split; [exact Hd|]. split; [exact Hs|].
        intros j Hj. apply Hlast. lia.
      * destruct (decide (getSignature buffer (start + offset + 4 + i0 * 12 + 0) = key))
          as [Heq|Hne].
        -- rewrite Heq, lookup_insert_eq in Hin. injection Hin as <-.
           left. exists i0. split; [lia|]. split; [exact Hd0|].
           split; [destruct Hd0 as (-> & _); exact Heq|].
           intros j Hj. apply Hnone. lia.
        -- rewrite lookup_insert_ne in Hin by exact Hne.
           right. split; [exact Hin|]. intros j Hj.
           destruct (decide (j = i0)) as [->|Hji]; [exact Hne|]. apply Hnone. lia.
    + destruct IH as (Hin & Hnone).
      destruct (decide (getSignature buffer (start + offset + 4 + i0 * 12 + 0) = key))
        as [Heq|Hne].
      * rewrite Heq, lookup_insert_eq in Hin. discriminate.
      * rewrite lookup_insert_ne in Hin by exact Hne.
        split; [exact Hin|]. intros j Hj.
        destruct (decide (j = i0)) as [->|Hji]; [exact Hne|]. apply Hnone. lia.
Qed.

(** ** A truncated tag table *)

(** A table slot that lies past the end of the buffer reads as the empty
    signature with offset 0 and size 0, so the type signature is looked
    for at [start] itself. *)
Lemma tagTableStep_past_end (buffer : Uint8Array) (start offset i : Z)
    (table : IccTagTable) :
  Z.of_nat (length buffer) <= start + offset + 4 -> 0 <= i ->
  tagTableStep buffer start offset i table
  = match tagDataParsers (getSignature buffer start) with
    | None => inr (<[EmptyString := emptyTag]> table)
    | Some parser =>
        try! d <- parser buffer start 0;
        ret (<[EmptyString := mkTag EmptyString 0 0 (Some d)]> table)
    end.
Proof.
  intros Hlen Hi. unfold tagTableStep. cbv zeta.
  rewrite !getUint32_past_end by lia.
  rewrite (getSignature_past_end buffer (start + offset + 4 + i * 12 + 0)) by lia.
  rewrite Z.add_0_r.
  destruct (tagDataParsers (getSignature buffer start)) as [parser|]; [|reflexivity].
  destruct (parser buffer start 0) as [e|d]; simpl; [reflexivity|].
  now rewrite insert_insert_eq.
Qed.

Lemma tagTableLoop_past_end (buffer : Uint8Array) (start offset : Z) (t : Tag) (n : nat) :
  (forall (i : Z) (table : IccTagTable), 0 <= i ->
     tagTableStep buffer start offset i table = inr (<[EmptyString := t]> table)) ->
  forall i : Z, 0 <= i ->
  tagTableLoop buffer start offset i n {[EmptyString := t]} = inr {[EmptyString := t]}.
Proof.
  intros Hstep. induction n as [|n IH]; intros i Hi; simpl.
  - reflexivity.
  - rewrite Hstep by assumption. simpl.
    rewrite insert_singleton_eq. apply IH. lia.
Qed.

(** C5, as the code has it.  [getTagTable] returns the empty mapping when
    the tag count read at [start + 128] is 0.  It has no check of the
    count against the buffer: on every buffer the only error it can raise
    is the [RangeError] of a ["curv"] payload with a negative sample
    count.  When the count is positive and every declared entry lies
    past the end of the buffer, the reads past the end give 0 and the
    empty signature, and the outcome is decided by the bytes at [start]:
    if they are no registered type signature the result is the one-entry
    mapping from the empty signature to a tag of offset 0 and size 0
    without payload; if they are, it is that entry with the payload the
    registered parser reads at [start] with size 0, or that parser's
    [RangeError]. *)
Theorem getTagTable_count (buffer : Uint8Array) (start : Z) :
  (getUint32 buffer (start + 128) = 0 -> getTagTable buffer start 128 = inr ∅) /\
  (forall e : JsError, getTagTable buffer start 128 = inl e -> e = RangeError) /\
  (0 < getUint32 buffer (start + 128) ->
   Z.of_nat (length buffer) <= start + 128 + 4 ->
   getTagTable buffer start 128
   = match tagDataParsers (getSignature buffer start) with
     | None => inr {[EmptyString := emptyTag]}
     | Some parser =>
         match parser buffer start 0 with
         | inl _ => inl RangeError
         | inr d => inr {[EmptyString := mkTag EmptyString 0 0 (Some d)]}
         end
     end).
Proof.
  unfold getTagTable. cbv zeta. rewrite Z.add_0_r. split; [|split].
  - intros ->. reflexivity.
  - intros e He.
    pose proof (tagTableLoop_spec buffer start 128
                  (Z.to_nat (getUint32 buffer (start + 128))) 0 ∅) as H.
    now rewrite He in H.
  - intros Hc Hlen.
    destruct (Z.to_nat (getUint32 buffer (start + 128))) as [|n] eqn:E; [lia|].
    simpl.
    pose proof (fun i table => tagTableStep_past_end buffer start 128 i table Hlen) as Hstep.
    rewrite (Hstep 0 ∅) by lia.
    destruct (tagDataParsers (getSignature buffer start)) as [parser|] eqn:Hp.
    + destruct (parser buffer start 0) as [e|d] eqn:Hd; simpl.
      * now rewrite (parser_throws _ _ _ _ _ _ Hp Hd).
      * rewrite insert_empty. apply tagTableLoop_past_end; [|lia].
        intros i table Hi. now rewrite Hstep by exact Hi.
    + simpl. rewrite insert_empty. apply tagTableLoop_past_end; [|lia].
      intros i table Hi. now rewrite Hstep by exact Hi.
Qed.

(** C5, counterexample.  [truncated] declares one tag, whose table entry
    would occupy bytes 132 to 143 of a 132-byte buffer; [getTagTable]
    returns a mapping instead of failing. *)
Lemma getTagTable_count_counterexample :
  getUint32 truncated 128 = 1 /\
  Z.of_nat (length truncated) < 128 + 4 + 12 * getUint32 truncated 128 /\
  getTagTable truncated 0 128 = inr {[EmptyString := emptyTag]}.
Proof. repeat split; vm_compute; reflexivity. Qed.

Lemma getTagTable_count_witness :
  0 < getUint32 truncated (0 + 128) /\
  Z.of_nat (length truncated) <= 0 + 128 + 4 /\
  tagDataParsers (getSignature truncated 0) = None /\
  getTagTable truncated 0 128 = inr {[EmptyString := emptyTag]}.
Proof.
  assert (H1 : 0 < getUint32 truncated (0 + 128)) by (vm_compute; reflexivity).
  assert (H2 : Z.of_nat (length truncated) <= 0 + 128 + 4) by (vm_compute; discriminate).
  assert (H3 : tagDataParsers (getSignature truncated 0) = None) by (vm_compute; reflexivity).
  split; [exact H1|]. split; [exact H2|]. split; [exact H3|].
  pose proof (proj2 (proj2 (getTagTable_count truncated 0)) H1 H2) as H.
  rewrite H3 in H. exact H.
Defined.

(** The same truncated table in a buffer that starts with ["curv"] and a
    sample count of -1: the entry past the end is given the payload found
    at [start], whose parser throws. *)
Example getTagTable_truncated_curv :
  getUint32 truncatedCurv 128 = 1 /\
  Z.of_nat (length truncatedCurv) <= 128 + 4 /\
  getTagTable truncatedCurv 0 128 = inl RangeError.
Proof. repeat split; vm_compute; solve [reflexivity | discriminate]. Qed.

(** An empty table: a header followed by a tag count of 0. *)
Example getTagTable_no_tags : getTagTable rgbNoTags 0 128 = inr ∅.
Proof. vm_compute. reflexivity. Qed.

(* --------------------------------------------------------------------- *)
(** ** Further properties of the tag table                                 *)
(* --------------------------------------------------------------------- *)

(** *** The three payload parsers *)

Lemma parseXyzLoop_spec (buffer : Uint8Array) (limit : Z) (n : nat) :
  forall xyzBase : Z,
  n = Z.to_nat ((limit - xyzBase + 11) / 12) ->
  length (parseXyzLoop buffer limit xyzBase) = n /\
  forall i : nat, (i < n)%nat ->
    parseXyzLoop buffer limit xyzBase !! i
    = Some (getXyz buffer (xyzBase + 12 * Z.of_nat i)).
Proof.
  induction n as [|n IH]; intros xyzBase Hn; simp parseXyzLoop;
    destruct (Z_lt_dec xyzBase limit) as [Hlt|Hge]; simpl.
  - exfalso.
    assert (1 <= (limit - xyzBase + 11) / 12) by (apply Z.div_le_lower_bound; lia). lia.
  - split; [reflexivity|]. intros i Hi. lia.
  - assert (Hrec : n = Z.to_nat ((limit - (xyzBase + 12) + 11) / 12)).
    { replace (limit - xyzBase + 11) with ((limit - (xyzBase + 12) + 11) + 1 * 12) in Hn by lia.
      rewrite Z.div_add in Hn by lia.
      assert (0 <= (limit - (xyzBase + 12) + 11) / 12) by (apply Z.div_pos; lia). lia. }
    destruct (IH (xyzBase + 12) Hrec) as [Hlen Helem].
    split; [now rewrite Hlen|].
    intros [|i] Hi; simpl.
    + now rewrite Z.add_0_r.
    + rewrite Helem by lia. do 2 f_equal. lia.
  - exfalso.
    assert ((limit - xyzBase + 11) / 12 <= 0); [|lia].
    apply Z.lt_succ_r. apply Z.div_lt_upper_bound; lia.
Qed.

(** X25.  The ["XYZ "] parser never fails.  It returns the triples decoded
    at [offset + 8], [offset + 20], ... for as long as the position is
    below [offset + size]: [(size + 3) / 12] of them (rounded down, none
    when [size] is at most 8), a last triple being read in full even when
    fewer than 12 bytes of it lie below [offset + size]. *)
Theorem parseXyz_values (buffer : Uint8Array) (offset size : Z) :
  exists values : list Xyz,
    parseXyz buffer offset size = inr (XyzTagData values) /\
    length values = Z.to_nat ((size + 3) / 12) /\
    forall i : nat, (i < length values)%nat ->
      values !! i = Some (getXyz buffer (offset + 8 + 12 * Z.of_nat i)).
Proof.
  unfold parseXyz. cbv zeta. eexists. split; [reflexivity|].
  destruct (parseXyzLoop_spec buffer (offset + size) _ (offset + 8) eq_refl) as [Hlen Helem].
  replace (offset + size - (offset + 8) + 11) with (size + 3) in * by lia.
  split; [exact Hlen|]. intros i Hi. apply Helem. lia.
Qed.

Lemma parseCurvLoop_spec (buffer : Uint8Array) (offset : Z) (n : nat) :
  forall i0 : Z,
  length (parseCurvLoop buffer offset i0 n) = n /\
  forall i : nat, (i < n)%nat ->
    parseCurvLoop buffer offset i0 n !! i
    = Some (getUint16 buffer (offset + 12 + (i0 + Z.of_nat i) * 2)).
Proof.
  induction n as [|n IH]; intros i0; simpl.
  - split; [reflexivity|]. intros i Hi. lia.
  - destruct (IH (i0 + 1)) as [Hlen Helem]. split; [now rewrite Hlen|].
    intros [|i] Hi; simpl.
    + now rewrite Z.add_0_r.
    + rewrite Helem by lia. do 3 f_equal. lia.
Qed.

(** X26.  The ["curv"] parser reads the sample count as a signed 32-bit
    integer at [offset + 8] and ignores [size].  A negative count makes
    it throw a [RangeError]; otherwise it returns that many samples,
    sample [i] being the uint16 at [offset + 12 + 2 i], each in
    [[0, 65535]]. *)
Theorem parseCurv_values (buffer : Uint8Array) (offset size : Z) :
  let count := getUint32 buffer (offset + 8) in
  (count < 0 -> parseCurv buffer offset size = inl RangeError) /\
  (0 <= count ->
   exists values : list Z,
     parseCurv buffer offset size = inr (CurveTagData values) /\
     length values = Z.to_nat count /\
     (forall i : nat, (i < length values)%nat ->
        values !! i = Some (getUint16 buffer (offset + 12 + 2 * Z.of_nat i))) /\
     Forall (fun v => 0 <= v < 2 ^ 16) values).
Proof.
  cbv zeta. unfold parseCurv. cbv zeta.
  destruct (Z.ltb_spec (getUint32 buffer (offset + 8)) 0) as [Hneg|Hpos];
    (split; [intros; try reflexivity; lia|]); intros Hc; [lia|].
  eexists. split; [reflexivity|].
  destruct (parseCurvLoop_spec buffer offset (Z.to_nat (getUint32 buffer (offset + 8))) 0)
    as [Hlen Helem].
  split; [exact Hlen|]. split.
  - intros i Hi. rewrite Helem by lia. do 2 f_equal. lia.
  - apply Forall_lookup. intros i v Hv.
    assert (Hi : (i < Z.to_nat (getUint32 buffer (offset + 8)))%nat).
    { rewrite <- Hlen. eapply lookup_lt_Some. exact Hv. }
    rewrite Helem in Hv by exact Hi. injection Hv as <-. apply getUint_range.
Qed.

Lemma parseCurv_values_witness :
  0 <= getUint32 twoSamples (0 + 8) /\
  exists values : list Z,
    parseCurv twoSamples 0 16 = inr (CurveTagData values) /\
    length values = Z.to_nat (getUint32 twoSamples (0 + 8)) /\
    (forall i : nat, (i < length values)%nat ->
       values !! i = Some (getUint16 twoSamples (0 + 12 + 2 * Z.of_nat i))) /\
    Forall (fun v => 0 <= v < 2 ^ 16) values.
Proof.
  assert (H : 0 <= getUint32 twoSamples (0 + 8)) by (vm_compute; discriminate).
  split; [exact H|]. exact (proj2 (parseCurv_values twoSamples 0 16) H).
Defined.

Lemma parseChrmLoop_spec (buffer : Uint8Array) (offset : Z) (n : nat) :
  forall i0 : Z,
  length (parseChrmLoop buffer offset i0 n) = n /\
  forall i : nat, (i < n)%nat ->
    parseChrmLoop buffer offset i0 n !! i
    = Some (mkChromaticity (getU16Fixed16 buffer (offset + 12 + (i0 + Z.of_nat i) * 8))
              (getU16Fixed16 buffer (offset + 16 + (i0 + Z.of_nat i) * 8))).
Proof.
  induction n as [|n IH]; intros i0; simpl.
  - split; [reflexivity|]. intros i Hi. lia.
  - destruct (IH (i0 + 1)) as [Hlen Helem]. split; [now rewrite Hlen|].
    intros [|i] Hi; simpl.
    + now rewrite Z.add_0_r.
    + rewrite Helem by lia.
      replace (i0 + 1 + Z.of_nat i) with (i0 + Z.pos (Pos.of_succ_nat i)) by lia.
      reflexivity.
Qed.

(** X27.  The ["chrm"] parser never fails and ignores [size].  It returns
    the colorant type read as a uint16 at [offset + 10] and as many
    channels as the uint16 at [offset + 8] says, channel [i] being the
    pair of u16Fixed16 numbers at [offset + 12 + 8 i] and
    [offset + 16 + 8 i]. *)
Theorem parseChrm_values (buffer : Uint8Array) (offset size : Z) :
  exists channels : list Chromaticity,
    parseChrm buffer offset size
    = inr (ChromaticityTagData (getUint16 buffer (offset + 10)) channels) /\
    length channels = Z.to_nat (getUint16 buffer (offset + 8)) /\
    forall i : nat, (i < length channels)%nat ->
      channels !! i
      = Some (mkChromaticity (getU16Fixed16 buffer (offset + 12 + 8 * Z.of_nat i))
                (getU16Fixed16 buffer (offset + 16 + 8 * Z.of_nat i))).
Proof.
  unfold parseChrm. cbv zeta. eexists. split; [reflexivity|].
  destruct (parseChrmLoop_spec buffer offset (Z.to_nat (getUint16 buffer (offset + 8))) 0)
    as [Hlen Helem].
  split; [exact Hlen|].
  intros i Hi. rewrite Helem by lia.
  replace ((0 + Z.of_nat i) * 8) with (8 * Z.of_nat i) by lia. reflexivity.
Qed.

(** The three payloads on concrete bytes. *)
Example parsers_on_bytes :
  parseXyz oneTag 144 20 = inr (XyzTagData [mkXyz (32768 # 65536) (65536 # 65536) (-65536 # 65536)]) /\
  parseCurv twoSamples 0 16 = inr (CurveTagData [0; 65535]) /\
  parseChrm oneChannel 0 20
  = inr (ChromaticityTagData 1 [mkChromaticity (32768 # 65536) (16384 # 65536)]).
Proof. repeat split; vm_compute; reflexivity. Qed.

(** *** The tag directory *)

(** X28.  [getTagTable] throws nothing but a [RangeError] (that of a
    ["curv"] payload with a negative sample count).  When it returns, the
    table holds under each key what the last directory slot bearing that
    signature describes (signature, offset, size and parsed payload), and
    it holds nothing under a key that no slot below the tag count bears:
    of slots with the same signature the last one wins. *)
Theorem getTagTable_lookup (buffer : Uint8Array) (start offset : Z) :
  let count := getUint32 buffer (start + offset + 0) in
  match getTagTable buffer start offset with
  | inl e => e = RangeError
  | inr table =>
      forall key : string,
        match table !! key with
        | Some tag =>
            exists i : Z,
              0 <= i < count /\ describes buffer start offset i tag /\
              signature tag = key /\
              forall j : Z, i < j < count ->
                getSignature buffer (start + offset + 4 + j * 12 + 0) <> key
        | None =>
            forall j : Z, 0 <= j < count ->
              getSignature buffer (start + offset + 4 + j * 12 + 0) <> key
        end
  end.
Proof.
  cbv zeta. unfold getTagTable. cbv zeta.
  set (count := getUint32 buffer (start + offset + 0)).
  pose proof (tagTableLoop_spec buffer start offset (Z.to_nat count) 0 ∅) as H.
  destruct (tagTableLoop _ _ _ _ _ _) as [e|table]; [exact H|].
  intros key. specialize (H key).
  destruct (table !! key) as [tag|].
  - destruct H as [(i & Hi & Hd & Hs & Hlast)|(Hin & _)].
    + exists i. split; [lia|]. split; [exact Hd|]. split; [exact Hs|].
      intros j Hj. apply Hlast. lia.
    + rewrite lookup_empty in Hin. discriminate.
  - destruct H as (_ & Hnone). intros j Hj. apply Hnone. lia.
Qed.

(** A table with one tag, and the payload found at its offset. *)
Example getTagTable_oneTag :
  getTagTable oneTag 0 128
  = inr {[ "rXYZ" := mkTag "rXYZ" 144 20
             (Some (XyzTagData [mkXyz (32768 # 65536) (65536 # 65536) (-65536 # 65536)])) ]}.
Proof. vm_compute. reflexivity. Qed.

End TagFacts.

(* ===================================================================== *)
(** * Properties of the curve engine                                       *)
(* ===================================================================== *)

Module CurveFacts.
Import Curve Notions.
#[local] Open Scope Z_scope.
#[local] Open Scope R_scope.

(** Evaluate the integer under each [IZR]. *)
Ltac izr_compute :=
  repeat match goal with
  | |- context [IZR ?z] =>
      let z' := eval vm_compute in z in
      progress change (IZR z) with (IZR z')
  end.

(** ** Array reads *)

Lemma index_Some {A} (array : list A) (i : Z) (a : A) :
  index array i = Some a -> (0 <= i)%Z /\ array !! Z.to_nat i = Some a.
Proof.
  unfold index. destruct (Z.ltb_spec i 0); [discriminate|]. auto.
Qed.

Lemma index_in_range {A} (array : list A) (i : Z) :
  (0 <= i < Z.of_nat (length array))%Z -> exists a, index array i = Some a.
Proof.
  intros H. unfold index. destruct (Z.ltb_spec i 0); [lia|].
  destruct (lookup_lt_is_Some_2 array (Z.to_nat i)) as [a Ha]; [lia|]. eauto.
Qed.

Lemma index_of_nat {A} (array : list A) (i : nat) :
  index array (Z.of_nat i) = array !! i.
Proof.
  unfold index. destruct (Z.ltb_spec (Z.of_nat i) 0); [lia|]. now rewrite Nat2Z.id.
Qed.

(** ** The binary search *)

(** One turn of the loop of [binarySearch], as the source writes it. *)
Lemma binarySearchLoop_step (array : list R) (value : R) (low high : Z) :
  binarySearchLoop array value low high =
  if Z_le_dec low high then
    let mid := Z.shiftr (low + high) 1 in
    match index array mid with
    | Some a =>
        if Rlt_dec a value then binarySearchLoop array value (mid + 1) high
        else if Rgt_dec a value then binarySearchLoop array value low (mid - 1)
        else mid
    | None => mid
    end
  else (- (low + 1))%Z.
Proof.
  funelim (binarySearchLoop array value low high); cbv zeta;
    rewrite <- ?Heqcall, ?Heq, ?Heq0, ?Heq1, ?Heq2; cbn; rewrite ?Heq, ?Heq0; reflexivity.
Qed.

Lemma half_between (low high : Z) :
  (low <= high)%Z -> (low <= Z.shiftr (low + high) 1 <= high)%Z.
Proof.
  intros H. rewrite Z.shiftr_div_pow2 by lia. change (2 ^ 1)%Z with 2%Z.
  pose proof (Z.div_mod (low + high) 2 ltac:(lia)).
  pose proof (Z.mod_pos_bound (low + high) 2 ltac:(lia)). lia.
Qed.

Section BinarySearch.
Variable array : list R.
Variable value : R.
Hypothesis sorted : monotone array.

Lemma index_monotone (i j : Z) (a b : R) :
  (i <= j)%Z -> index array i = Some a -> index array j = Some b -> a <= b.
Proof.
  intros Hij Hi Hj.
  apply index_Some in Hi as [? Hi]. apply index_Some in Hj as [? Hj].
  apply (sorted (Z.to_nat i) (Z.to_nat j)); auto. lia.
Qed.

(** The loop, started in a state that satisfies its invariant, ends in a
    hit or in a miss that encodes the separating index. *)
Lemma binarySearchLoop_spec (low high : Z) :
  (0 <= low)%Z -> (high < Z.of_nat (length array))%Z -> (low <= high + 1)%Z ->
  belowBefore array value low -> aboveFrom array value (high + 1) ->
  searchResult array value (binarySearchLoop array value low high).
Proof.
  funelim (binarySearchLoop array value low high); intros Hlow Hhigh Hlh Hb Ha.
  - right. replace (- - (low + 1) - 1)%Z with low by lia.
    repeat split; try lia; auto.
    replace low with (high + 1)%Z by lia. exact Ha.
  - destruct (half_between low high) as [? ?]; [lia|].
    destruct (index_in_range array (Z.shiftr (low + high) 1)) as [a Ha']; [lia|].
    congruence.
  - destruct (half_between low high) as [? ?]; [lia|].
    apply H; auto; try lia.
    intros j b Hj Hjb.
    assert (b <= a) by (apply (index_monotone j (Z.shiftr (low + high) 1)); auto; lia).
    lra.
  - destruct (half_between low high) as [? ?]; [lia|].
    apply H; auto; try lia.
    intros j b Hj Hjb.
    assert (a <= b) by (apply (index_monotone (Z.shiftr (low + high) 1) j); auto; lia).
    unfold Rgt in *. lra.
  - destruct (half_between low high) as [? ?]; [lia|].
    left. split; [lia|]. rewrite Heq1. f_equal. unfold Rgt in *. lra.
Qed.

Lemma binarySearch_spec : searchResult array value (binarySearch array value).
Proof.
  unfold binarySearch. cbv zeta.
  apply binarySearchLoop_spec; auto; unfold lastIndex; try lia.
  - intros j a Hj Hja. apply index_Some in Hja. lia.
  - intros j a Hj Hja. apply index_Some in Hja as [_ Hja].
    apply lookup_lt_Some in Hja. lia.
Qed.

End BinarySearch.

(** ** Ascending samples *)

Lemma ascending_lookup (values : list R) (i j : nat) (a b : R) :
  ascending values -> (i < j)%nat ->
  values !! i = Some a -> values !! j = Some b -> a < b.
Proof.
  intros Hs. revert i j a b.
  induction Hs as [|v values Hs IH Hall]; intros i j a b Hij Hi Hj.
  - discriminate.
  - destruct j as [|j]; [lia|]. destruct i as [|i]; simpl in *.
    + injection Hi as <-. rewrite Forall_forall in Hall.
      apply Hall. eapply list_elem_of_lookup_2. exact Hj.
    + apply (IH i j); auto. lia.
Qed.

Lemma ascending_monotone (values : list R) : ascending values -> monotone values.
Proof.
  intros Hs i j a b Hij Hi Hj.
  destruct (decide (i = j)) as [->|Hne].
  - rewrite Hi in Hj. injection Hj as ->. lra.
  - left. apply (ascending_lookup values i j); auto. lia.
Qed.

Lemma ascending_lookup_inj (values : list R) (i j : nat) (a : R) :
  ascending values -> values !! i = Some a -> values !! j = Some a -> i = j.
Proof.
  intros Hs Hi Hj.
  destruct (Nat.lt_trichotomy i j) as [H|[H|H]]; auto.
  - pose proof (ascending_lookup values i j a a Hs H Hi Hj). lra.
  - pose proof (ascending_lookup values j i a a Hs H Hj Hi). lra.
Qed.

Lemma insertionIndex_unique (values : list R) (y : R) (k : nat) :
  (k <= length values)%nat ->
  (forall j a, (j < k)%nat -> values !! j = Some a -> a < y) ->
  (forall a, values !! k = Some a -> ~ a < y) ->
  insertionIndex values y = k.
Proof.
  revert k. induction values as [|v values IH]; intros k Hk Hlt Hge; simpl in *.
  - lia.
  - destruct (Rlt_dec v y) as [Hv|Hv].
    + destruct k as [|k]; [exfalso; apply (Hge v); auto|].
      f_equal. apply IH; [lia| |].
      * intros j a Hj Ha. apply (Hlt (S j)); auto. lia.
      * intros a Ha. apply Hge. exact Ha.
    + destruct k as [|k]; [reflexivity|].
      exfalso. apply Hv. apply (Hlt 0%nat); auto. lia.
Qed.

(** A hit of the search on ascending samples is at the one index that
    holds the value. *)
Lemma binarySearch_hit (values : list R) (y : R) (i : nat) :
  ascending values -> values !! i = Some y -> binarySearch values y = Z.of_nat i.
Proof.
  intros Hs Hi.
  destruct (binarySearch_spec values y (ascending_monotone _ Hs))
    as [[Hr Hidx]|(Hr & _ & Hb & Ha)].
  - apply index_Some in Hidx as [_ Hidx].
    pose proof (ascending_lookup_inj values _ _ y Hs Hidx Hi). lia.
  - exfalso. rewrite <- index_of_nat in Hi.
    destruct (Z.lt_ge_cases (Z.of_nat i) (- binarySearch values y - 1)) as [H|H].
    + pose proof (Hb _ _ H Hi). lra.
    + pose proof (Ha _ _ H Hi). lra.
Qed.

(** A miss encodes the insertion index. *)
Lemma binarySearch_miss (values : list R) (y : R) :
  ascending values -> y ∉ values ->
  binarySearch values y = (- (Z.of_nat (insertionIndex values y) + 1))%Z.
Proof.
  intros Hs Hnot.
  destruct (binarySearch_spec values y (ascending_monotone _ Hs))
    as [[Hr Hidx]|(Hr & Hrange & Hb & Ha)].
  - exfalso. apply Hnot. apply index_Some in Hidx as [_ Hidx].
    eapply list_elem_of_lookup_2. exact Hidx.
  - rewrite (insertionIndex_unique values y (Z.to_nat (- binarySearch values y - 1))).
    + lia.
    + lia.
    + intros j a Hj Hja. apply (Hb (Z.of_nat j)); [lia|]. now rewrite index_of_nat.
    + intros a Hk Hlt.
      assert (y < a); [|lra].
      apply (Ha (- binarySearch values y - 1)%Z); [lia|].
      unfold index. destruct (Z.ltb_spec (- binarySearch values y - 1) 0); [lia|].
      exact Hk.
Qed.

Lemma ascending_three : ascending [0; 0.5; 1].
Proof. repeat constructor; lra. Qed.

(** C8.  On a table of ascending samples, [applyInverse] at a query [y]
    that equals the sample at index [i] returns [i / (n - 1)]; at a query
    that is no sample it returns the insertion index divided by [n - 1]:
    the result is always a normalised index, never an interpolated
    value. *)
Theorem applyInverse_lut_index (values : list R) (y : R) :
  ascending values ->
  (forall i : nat, values !! i = Some y ->
     applyInverse (Lut values) y = IZR (Z.of_nat i) / IZR (lastIndex values)) /\
  (y ∉ values ->
     applyInverse (Lut values) y
     = IZR (Z.of_nat (insertionIndex values y)) / IZR (lastIndex values)).
Proof.
  intros Hs. split.
  - intros i Hi. unfold applyInverse. cbv zeta.
    rewrite (binarySearch_hit values y i Hs Hi).
    destruct (Z.geb_spec (Z.of_nat i) 0); [reflexivity|lia].
  - intros Hnot. unfold applyInverse. cbv zeta.
    rewrite (binarySearch_miss values y Hs Hnot).
    destruct (Z.geb_spec (- (Z.of_nat (insertionIndex values y) + 1)) 0); [lia|].
    do 2 f_equal. lia.
Qed.

(** The table [0, 0.5, 1]: the query 0.5 is the sample at index 1 and
    gives 1/2; the query 0.25 is no sample, its insertion index is 1, and
    it gives 1/2 as well (an interpolation would give 1/4). *)
Lemma applyInverse_lut_index_witness :
  ascending [0; 0.5; 1] /\
  applyInverse (Lut [0; 0.5; 1]) 0.5 = 0.5 /\
  applyInverse (Lut [0; 0.5; 1]) 0.25 = 0.5.
Proof.
  split; [exact ascending_three|].
  destruct (applyInverse_lut_index [0; 0.5; 1] 0.5 ascending_three) as [Hhit _].
  destruct (applyInverse_lut_index [0; 0.5; 1] 0.25 ascending_three) as [_ Hmiss].
  split.
  - rewrite (Hhit 1%nat eq_refl). unfold lastIndex. izr_compute. lra.
  - rewrite Hmiss.
    + unfold lastIndex, insertionIndex.
      destruct (Rlt_dec 0 0.25); [|lra]. destruct (Rlt_dec 0.5 0.25); [lra|].
      izr_compute. lra.
    + rewrite !elem_of_cons, elem_of_nil. intros [H|[H|[H|[]]]]; lra.
Defined.

(** ** Round trip through a curve *)

Lemma pow_inverse (x gamma : R) :
  0 <= x -> 0 < gamma -> pow (pow x gamma) (1 / gamma) = x.
Proof.
  intros Hx Hg. unfold pow.
  assert (Hinv : 1 / gamma <> 0).
  { unfold Rdiv. rewrite Rmult_1_l. apply Rinv_neq_0_compat. lra. }
  destruct (Req_dec_T x 0) as [->|Hx0].
  - destruct (Req_dec_T gamma 0); [lra|].
    destruct (Req_dec_T 0 0); [|lra].
    destruct (Req_dec_T (1 / gamma) 0); [contradiction|reflexivity].
  - destruct (Rlt_dec 0 x); [|lra].
    assert (0 < Rpower x gamma) by (unfold Rpower; apply exp_pos).
    destruct (Req_dec_T (Rpower x gamma) 0); [lra|].
    destruct (Rlt_dec 0 (Rpower x gamma)); [|lra].
    rewrite Rpower_mult. replace (gamma * (1 / gamma)) with 1 by (field; lra).
    apply Rpower_1. lra.
Qed.

(** The sample that [apply] picks lies in the table and within half a step
    of the scaled input. *)
Lemma round_index (n1 : Z) (x : R) :
  (0 <= n1)%Z -> 0 <= x <= 1 ->
  (0 <= round (IZR n1 * x) <= n1)%Z /\
  Rabs (IZR (round (IZR n1 * x)) - IZR n1 * x) <= / 2.
Proof.
  intros Hn Hx. unfold round.
  pose proof (Zfloor_bound (IZR n1 * x + / 2)) as [Hlo Hhi].
  assert (0 <= IZR n1) by (apply IZR_le; lia).
  assert (0 <= IZR n1 * x <= IZR n1) by nra.
  repeat split.
  - assert (- 1 < Zfloor (IZR n1 * x + / 2))%Z; [|lia]. apply lt_IZR. lra.
  - assert (Zfloor (IZR n1 * x + / 2) < n1 + 1)%Z; [|lia]. apply lt_IZR.
    rewrite plus_IZR. lra.
  - apply Rabs_le. lra.
Qed.

(** C7.  For a well-formed curve [c] (identity; gamma with [gamma > 0];
    table of at least two ascending samples) and [x] in [[0, 1]],
    [apply c x] is defined and [applyInverse] brings it back to [x]:
    exactly for the identity and gamma curves, within [1 / (n - 1)] for a
    table of [n] samples. *)
Theorem applyInverse_apply (c : Curve) (x : R) :
  wellFormed c -> 0 <= x <= 1 ->
  exists y : R,
    apply c x = Some y /\
    match c with
    | Lut values => Rabs (applyInverse c y - x) <= 1 / IZR (lastIndex values)
    | _ => applyInverse c y = x
    end.
Proof.
  intros Hc Hx. destruct c as [|gamma|values]; simpl in Hc.
  - exists x. split; reflexivity.
  - exists (pow x gamma). split; [reflexivity|]. apply pow_inverse; lra.
  - destruct Hc as [Hlen Hs].
    assert (Hn : (1 <= lastIndex values)%Z) by (unfold lastIndex; lia).
    destruct (round_index (lastIndex values) x) as [Hidx Habs]; [lia|lra|].
    destruct (index_in_range values (round (IZR (lastIndex values) * x))) as [y Hy];
      [unfold lastIndex in *; lia|].
    exists y. split; [exact Hy|].
    apply index_Some in Hy as [_ Hy].
    unfold applyInverse. cbv zeta.
    rewrite (binarySearch_hit values y _ Hs Hy).
    rewrite Z2Nat.id by lia.
    destruct (Z.geb_spec (round (IZR (lastIndex values) * x)) 0); [|lia].
    assert (Hpos : 1 <= IZR (lastIndex values)) by (apply IZR_le; lia).
    set (n1 := IZR (lastIndex values)) in *.
    set (i := IZR (round (n1 * x))) in *.
    replace (i / n1 - x) with ((i - n1 * x) / n1) by (field; lra).
    unfold Rdiv. rewrite Rabs_mult, (Rabs_pos_eq (/ n1)).
    + apply Rmult_le_compat_r; [|lra].
      left. apply Rinv_0_lt_compat. lra.
    + left. apply Rinv_0_lt_compat. lra.
Qed.

Lemma applyInverse_apply_witness :
  wellFormed (Lut [0; 0.5; 1]) /\ 0 <= 0.5 <= 1 /\
  exists y : R, apply (Lut [0; 0.5; 1]) 0.5 = Some y /\
    Rabs (applyInverse (Lut [0; 0.5; 1]) y - 0.5) <= 1 / IZR (lastIndex [0; 0.5; 1]).
Proof.
  assert (Hw : wellFormed (Lut [0; 0.5; 1])).
  { split; [simpl; lia|exact ascending_three]. }
  assert (Hx : 0 <= 0.5 <= 1) by lra.
  split; [exact Hw|]. split; [exact Hx|].
  exact (applyInverse_apply (Lut [0; 0.5; 1]) 0.5 Hw Hx).
Defined.

(** The round trip at a sample of a gamma curve. *)
Example gamma_roundtrip :
  exists y : R, apply (Gamma 2.2) 0.4 = Some y /\ applyInverse (Gamma 2.2) y = 0.4.
Proof.
  exists (pow 0.4 2.2). split; [reflexivity|]. apply pow_inverse; lra.
Qed.

(** Why the samples have to be strictly ascending: with repeated samples
    the search stops on the first index it probes that holds the value.
    For the table [0, 0, 0, 0, 1] the input 0 is sent to the sample 0 at
    index 0 and brought back to 2/4. *)
Lemma applyInverse_repeated_samples :
  apply (Lut [0; 0; 0; 0; 1]) 0 = Some 0 /\
  applyInverse (Lut [0; 0; 0; 0; 1]) 0 = 1 / 2.
Proof.
  split.
  - unfold apply, round, lastIndex. rewrite Rmult_0_r.
    replace (Zfloor (0 + / 2)) with 0%Z; [reflexivity|].
    symmetry. apply Zfloor_eq. lra.
  - unfold applyInverse, binarySearch. cbv zeta.
    change (lastIndex [0; 0; 0; 0; 1]) with 4%Z.
    rewrite binarySearchLoop_step.
    destruct (Z_le_dec 0 4) as [_|?]; [|lia]. cbv zeta.
    change (index [0; 0; 0; 0; 1] (Z.shiftr (0 + 4) 1)) with (Some 0).
    cbv beta iota.
    destruct (Rlt_dec 0 0); [lra|]. destruct (Rgt_dec 0 0); [lra|].
    change (Z.shiftr (0 + 4) 1) with 2%Z. izr_compute. lra.
Qed.

(* --------------------------------------------------------------------- *)
(** ** Further properties of the curves                                   *)
(* --------------------------------------------------------------------- *)

(** ** Gamma curves *)

Lemma pow_0_l (g : R) : 0 < g -> pow 0 g = 0.
Proof.
  intros Hg. unfold pow. destruct (Req_dec_T 0 0); [|lra].
  destruct (Req_dec_T g 0); [lra|reflexivity].
Qed.

Lemma pow_1 (g : R) : pow 1 g = 1.
Proof.
  unfold pow. destruct (Req_dec_T 1 0); [lra|].
  destruct (Rlt_dec 0 1); [|lra].
  unfold Rpower. rewrite ln_1, Rmult_0_r. apply exp_0.
Qed.

Lemma pow_pos (x g : R) : 0 < x -> pow x g = Rpower x g.
Proof.
  intros Hx. unfold pow. destruct (Req_dec_T x 0); [lra|].
  destruct (Rlt_dec 0 x); [reflexivity|lra].
Qed.

(** A negative base with an integer exponent: [(-2) ** 2] is 4 and
    [(-2) ** 3] is -8. *)
Example pow_negative_base : pow (-2) 2 = 4 /\ pow (-2) 3 = -8.
Proof.
  unfold pow.
  destruct (Req_dec_T (-2) 0); [lra|]. destruct (Rlt_dec 0 (-2)); [lra|].
  replace (Zfloor 2) with 2%Z by (symmetry; apply Zfloor_eq; split; simpl; lra).
  replace (Zfloor 3) with 3%Z by (symmetry; apply Zfloor_eq; split; simpl; lra).
  simpl. lra.
Qed.

Lemma pow_range (x g : R) : 0 <= x <= 1 -> 0 < g -> 0 <= pow x g <= 1.
Proof.
  intros [Hx0 Hx1] Hg.
  destruct (Req_dec_T x 0) as [->|Hne]; [rewrite pow_0_l by lra; lra|].
  rewrite pow_pos by lra. unfold Rpower. split; [left; apply exp_pos|].
  rewrite <- exp_0.
  assert (ln x <= 0).
  { rewrite <- ln_1. destruct (Req_dec_T x 1) as [->|]; [lra|].
    left. apply ln_increasing; lra. }
  destruct (Req_dec_T (g * ln x) 0) as [->|]; [lra|].
  left. apply exp_increasing. nra.
Qed.

Lemma pow_monotone (x1 x2 g : R) :
  0 <= x1 <= x2 -> 0 < g -> pow x1 g <= pow x2 g.
Proof.
  intros [H1 H2] Hg.
  destruct (Req_dec_T x1 0) as [->|Hne].
  - rewrite pow_0_l by lra.
    destruct (Req_dec_T x2 0) as [->|]; [rewrite pow_0_l by lra; lra|].
    rewrite pow_pos by lra. left. apply exp_pos.
  - rewrite !pow_pos by lra. apply Rle_Rpower_l; lra.
Qed.

Lemma pow_forward (y g : R) : 0 <= y -> 0 < g -> pow (pow y (1 / g)) g = y.
Proof.
  intros Hy Hg.
  assert (Hinv : 0 < 1 / g) by (apply Rdiv_lt_0_compat; lra).
  rewrite <- (pow_inverse y (1 / g) Hy Hinv) at 2.
  f_equal. field. lra.
Qed.

(** X14.  A gamma curve with a positive exponent fixes 0 and 1, maps
    [[0, 1]] into [[0, 1]] and is non-decreasing on the non-negative
    inputs. *)
Theorem gamma_curve (gamma : R) :
  0 < gamma ->
  apply (Gamma gamma) 0 = Some 0 /\
  apply (Gamma gamma) 1 = Some 1 /\
  (forall x, 0 <= x <= 1 ->
     exists y, apply (Gamma gamma) x = Some y /\ 0 <= y <= 1) /\
  (forall x1 x2 y1 y2, 0 <= x1 <= x2 ->
     apply (Gamma gamma) x1 = Some y1 -> apply (Gamma gamma) x2 = Some y2 ->
     y1 <= y2).
Proof.
  intros Hg. simpl. repeat split.
  - now rewrite pow_0_l.
  - now rewrite pow_1.
  - intros x Hx. exists (pow x gamma). split; [reflexivity|]. now apply pow_range.
  - intros x1 x2 y1 y2 Hx [= <-] [= <-]. now apply pow_monotone.
Qed.

Lemma gamma_curve_witness :
  0 < 2.2 /\ apply (Gamma 2.2) 0 = Some 0 /\ apply (Gamma 2.2) 1 = Some 1.
Proof.
  assert (H : 0 < 2.2) by lra.
  split; [exact H|]. destruct (gamma_curve 2.2 H) as (H0 & H1 & _). auto.
Defined.

Lemma apply_applyInverse_analytic (c : Curve) (y : R) :
  analytic c -> 0 <= y -> apply c (applyInverse c y) = Some y.
Proof.
  destruct c as [|gamma|values]; simpl; intros Hc Hy.
  - reflexivity.
  - f_equal. now apply pow_forward.
  - contradiction.
Qed.

(** X15.  In exact real arithmetic, for the identity and for a gamma curve
    with a positive exponent, [apply] undoes [applyInverse] on every
    non-negative value.  (The code computes in IEEE doubles, where each
    operation rounds: there the equality can fail in the last bits.) *)
Theorem apply_applyInverse (c : Curve) (y : R) :
  analytic c -> 0 <= y -> apply c (applyInverse c y) = Some y.
Proof. exact (apply_applyInverse_analytic c y). Qed.

Lemma apply_applyInverse_witness :
  analytic (Gamma 2.6) /\ 0 <= 0.3 /\
  apply (Gamma 2.6) (applyInverse (Gamma 2.6) 0.3) = Some 0.3.
Proof.
  assert (H1 : analytic (Gamma 2.6)) by (simpl; lra).
  assert (H2 : 0 <= 0.3) by lra.
  split; [exact H1|]. split; [exact H2|].
  exact (apply_applyInverse (Gamma 2.6) 0.3 H1 H2).
Defined.

(** ** Tables *)

Lemma round_0 : round 0 = 0%Z.
Proof. unfold round. apply Zfloor_eq. lra. Qed.

Lemma round_IZR (n : Z) : round (IZR n) = n.
Proof. unfold round. apply Zfloor_eq. lra. Qed.

(** X16.  On a non-empty table and an input in [[0, 1]], [apply] is defined
    and returns one of the samples; the input 0 gives the first sample and
    the input 1 the last. *)
Theorem apply_lut_defined (values : list R) (x : R) :
  values <> [] -> 0 <= x <= 1 ->
  (exists y, apply (Lut values) x = Some y /\ y ∈ values) /\
  apply (Lut values) 0 = head values /\
  apply (Lut values) 1 = last values.
Proof.
  intros Hne Hx.
  assert (Hlen : (0 < length values)%nat) by (destruct values; simpl; [congruence|lia]).
  repeat split.
  - destruct (round_index (lastIndex values) x) as [Hidx _];
      [unfold lastIndex; lia|lra|].
    destruct (index_in_range values (round (IZR (lastIndex values) * x))) as [y Hy];
      [unfold lastIndex in *; lia|].
    exists y. split; [exact Hy|].
    apply index_Some in Hy as [_ Hy]. eapply list_elem_of_lookup_2. exact Hy.
  - simpl. rewrite Rmult_0_r, round_0. unfold index. simpl.
    now destruct values.
  - simpl. rewrite Rmult_1_r, round_IZR. unfold index, lastIndex.
    destruct (Z.ltb_spec (Z.of_nat (length values) - 1) 0); [lia|].
    rewrite last_lookup. f_equal. lia.
Qed.

(** ** The search on any array *)

Lemma binarySearchLoop_any (array : list R) (value : R) (low high : Z) :
  (0 <= low)%Z -> (high < Z.of_nat (length array))%Z -> (low <= high + 1)%Z ->
  let r := binarySearchLoop array value low high in
  ((0 <= r)%Z -> (low <= r <= high)%Z /\ index array r = Some value) /\
  ((r < 0)%Z -> (low <= - r - 1 <= high + 1)%Z).
Proof.
  cbv zeta.
  funelim (binarySearchLoop array value low high); intros Hlow Hhigh Hlh.
  - split; intros; lia.
  - destruct (half_between low high) as [? ?]; [lia|].
    destruct (index_in_range array (Z.shiftr (low + high) 1)) as [a Ha']; [lia|].
    congruence.
  - destruct (half_between low high) as [? ?]; [lia|].
    destruct H as [Hhit Hmiss]; try lia.
    split; intros Hr.
    + destruct (Hhit Hr) as [? ?]. split; [lia|assumption].
    + specialize (Hmiss Hr). lia.
  - destruct (half_between low high) as [? ?]; [lia|].
    destruct H as [Hhit Hmiss]; try lia.
    split; intros Hr.
    + destruct (Hhit Hr) as [? ?]. split; [lia|assumption].
    + specialize (Hmiss Hr). lia.
  - destruct (half_between low high) as [? ?]; [lia|].
    split; intros Hr; [|lia]. split; [lia|].
    rewrite Heq1. f_equal. unfold Rgt in *. lra.
Qed.

(** X17.  On any array, ascending or not, [binarySearch] returns a value
    from [-(n + 1)] to [n - 1], and a non-negative result is an index that
    holds the searched value. *)
Theorem binarySearch_any (array : list R) (value : R) :
  let r := binarySearch array value in
  (- (Z.of_nat (length array) + 1) <= r < Z.of_nat (length array))%Z /\
  ((0 <= r)%Z -> index array r = Some value).
Proof.
  cbv zeta. unfold binarySearch. cbv zeta.
  destruct (binarySearchLoop_any array value 0 (lastIndex array)) as [Hhit Hmiss];
    unfold lastIndex in *; try lia.
  split.
  - destruct (Z.lt_ge_cases (binarySearchLoop array value 0 (Z.of_nat (length array) - 1)) 0)
      as [Hr|Hr].
    + specialize (Hmiss Hr). lia.
    + destruct (Hhit Hr). lia.
  - intros Hr. now destruct (Hhit Hr).
Qed.


Lemma apply_lut_defined_witness :
  [0.2; 0.9] <> [] /\ 0 <= 0.7 <= 1 /\
  (exists y, apply (Lut [0.2; 0.9]) 0.7 = Some y /\ y ∈ [0.2; 0.9]) /\
  apply (Lut [0.2; 0.9]) 0 = Some 0.2 /\
  apply (Lut [0.2; 0.9]) 1 = Some 0.9.
Proof.
  assert (H1 : [0.2; 0.9] <> []) by discriminate.
  assert (H2 : 0 <= 0.7 <= 1) by lra.
  split; [exact H1|]. split; [exact H2|].
  exact (apply_lut_defined [0.2; 0.9] 0.7 H1 H2).
Defined.

Lemma binarySearch_any_witness :
  index [0; 0.5; 1] (binarySearch [0; 0.5; 1] 0.5) = Some 0.5.
Proof.
  destruct (binarySearch_any [0; 0.5; 1] 0.5) as [_ H]. apply H.
  rewrite (binarySearch_hit [0; 0.5; 1] 0.5 1 ascending_three eq_refl). lia.
Defined.

End CurveFacts.

(* ===================================================================== *)
(** * Properties of the RGB matrices                                       *)
(* ===================================================================== *)

Module RgbFacts.
Import Math Curve Rgb Inputs.
#[local] Open Scope R_scope.

(** The forward matrix sends linear white to the white tristimulus it was
    built from. *)
Lemma calcMatrices_white (r g b : Chromaticity) (w : XyzColor) :
  det (primariesMatrix r g b) <> 0 ->
  matMulMV (xyz (calcMatrices r g b w)) 1 1 1 = w.
Proof.
  destruct r as [rx ry], g as [gx gy], b as [bx by_], w as [wx wy wz].
  unfold det, calcMatrices, primariesMatrix, lift, invertMat, matMulMV; simpl.
  intros Hdet. f_equal; field; exact Hdet.
Qed.

(** C6.  For chromaticities [r], [g], [b] whose matrix of lifted primaries
    is invertible and every white tristimulus [w], the forward matrix
    [M = calcMatrices(r, g, b, w).xyz] satisfies [M (1, 1, 1) = w] over the
    reals. *)
Theorem calcMatrices_maps_white (r g b : Chromaticity) (w : XyzColor) :
  det (primariesMatrix r g b) <> 0 ->
  matMulMV (xyz (calcMatrices r g b w)) 1 1 1 = w.
Proof. exact (calcMatrices_white r g b w). Qed.

Lemma srgb_primaries_invertible :
  det (primariesMatrix srgbRed srgbGreen srgbBlue) <> 0.
Proof. unfold det, primariesMatrix, lift; simpl. lra. Qed.

Lemma calcMatrices_maps_white_witness :
  det (primariesMatrix srgbRed srgbGreen srgbBlue) <> 0 /\
  matMulMV (xyz (calcMatrices srgbRed srgbGreen srgbBlue (mkVector3 0.9505 1 1.089)))
    1 1 1 = mkVector3 0.9505 1 1.089.
Proof.
  split; [exact srgb_primaries_invertible|].
  exact (calcMatrices_maps_white srgbRed srgbGreen srgbBlue
           (mkVector3 0.9505 1 1.089) srgb_primaries_invertible).
Defined.

Lemma clamp01_1 : clamp01 1 = 1.
Proof.
  unfold clamp01. destruct (Rlt_dec 1 0); [lra|].
  destruct (Rgt_dec 1 1); reflexivity.
Qed.

Lemma pow_1_l (g : R) : pow 1 g = 1.
Proof.
  unfold pow. destruct (Req_dec_T 1 0); [lra|].
  destruct (Rlt_dec 0 1); [|lra].
  unfold Rpower. rewrite ln_1, Rmult_0_r. apply exp_0.
Qed.

(** White of the built-in sRGB profile goes to the white tristimulus that
    [calcConversionInfo] built for the requested mode. *)
Lemma srgb_white_toXyz (hdr_ : bool) :
  toXyz (newRgbProfile srgb) (mkRgbColor 1 1 1) hdr_
  = if hdr_ then hdrWhitePoint (whitePoint srgb) else sdrWhitePoint (whitePoint srgb).
Proof.
  unfold toXyz.
  cbn [r g b trc prim_r prim_g prim_b primaries serializable newRgbProfile srgb
       applyInverse].
  rewrite clamp01_1, pow_1_l.
  destruct hdr_.
  - exact (calcMatrices_white srgbRed srgbGreen srgbBlue
             (hdrWhitePoint (whitePoint srgb)) srgb_primaries_invertible).
  - exact (calcMatrices_white srgbRed srgbGreen srgbBlue
             (sdrWhitePoint (whitePoint srgb)) srgb_primaries_invertible).
Qed.

(** The white tristimuli of [calcConversionInfo] carry the white point's
    chromaticity [y], and that value times the luminance, as their Y. *)
Lemma whitePoint_Y (w : WhitePoint) :
  y (sdrWhitePoint w) = cy (wp_chromaticity w) /\
  y (hdrWhitePoint w) = cy (wp_chromaticity w) * luminance w.
Proof. split; reflexivity. Qed.

(** C1, evaluated.  For the built-in sRGB profile (white chromaticity
    (0.3127, 0.3290), luminance 80) the white tristimuli have Y = 0.3290
    and Y = 26.32, and [toXyz] of white returns these: not 1 and 80. *)
Theorem srgb_white_luminance :
  y (sdrWhitePoint (whitePoint srgb)) = 0.3290 /\
  y (hdrWhitePoint (whitePoint srgb)) = 26.32 /\
  y (toXyz (newRgbProfile srgb) (mkRgbColor 1 1 1) false) = 0.3290 /\
  y (toXyz (newRgbProfile srgb) (mkRgbColor 1 1 1) true) = 26.32.
Proof.
  rewrite !srgb_white_toXyz. unfold hdrWhitePoint, sdrWhitePoint; simpl.
  repeat split; lra.
Qed.

(* --------------------------------------------------------------------- *)
(** ** Further properties of the matrices and of the RGB profile           *)
(* --------------------------------------------------------------------- *)

Import Notions CurveFacts.

(** ** Matrices *)

Lemma invertMat_cancel (m : Matrix3x3) (a b c : R) :
  det m <> 0 ->
  (let v := matMulMV m a b c in matMulMV (invertMat m) (x v) (y v) (z v))
  = mkVector3 a b c /\
  (let v := matMulMV (invertMat m) a b c in matMulMV m (x v) (y v) (z v))
  = mkVector3 a b c.
Proof.
  destruct m as [a00 a01 a02 a10 a11 a12 a20 a21 a22].
  unfold det, invertMat, matMulMV; simpl. intros Hdet.
  split; f_equal; field; exact Hdet.
Qed.

(** X18.  In exact real arithmetic, for a matrix with a nonzero
    determinant, [invertMat] gives the inverse: multiplying a vector by
    the matrix and by its inverse, in either order, returns the vector.
    (In the code's IEEE doubles each operation rounds, and the vector
    comes back up to rounding only.) *)
Theorem invertMat_inverse (m : Matrix3x3) (a b c : R) :
  det m <> 0 ->
  (let v := matMulMV m a b c in matMulMV (invertMat m) (x v) (y v) (z v))
  = mkVector3 a b c /\
  (let v := matMulMV (invertMat m) a b c in matMulMV m (x v) (y v) (z v))
  = mkVector3 a b c.
Proof. exact (invertMat_cancel m a b c). Qed.

Lemma det_invertMat (m : Matrix3x3) : det m <> 0 -> det (invertMat m) = / det m.
Proof.
  destruct m as [a00 a01 a02 a10 a11 a12 a20 a21 a22].
  unfold det, invertMat; simpl. intros Hdet. field. exact Hdet.
Qed.

(** X19.  In exact real arithmetic, for a matrix with a nonzero
    determinant, inverting twice returns the matrix.  (In the code's IEEE
    doubles the entries come back up to rounding only.) *)
Theorem invertMat_involutive (m : Matrix3x3) :
  det m <> 0 -> invertMat (invertMat m) = m.
Proof.
  destruct m as [a00 a01 a02 a10 a11 a12 a20 a21 a22].
  unfold det, invertMat; simpl. intros Hdet.
  f_equal; field; (split; [exact Hdet|]);
    match type of Hdet with
    | ?d <> 0 =>
        match goal with
        | |- ?p <> 0 => replace p with (d * d) by ring
        end
    end; apply Rmult_integral_contrapositive_currified; exact Hdet.
Qed.

Lemma clamp01_cases (x : R) :
  0 <= clamp01 x <= 1 /\
  (0 <= x <= 1 -> clamp01 x = x) /\
  (x < 0 -> clamp01 x = 0) /\
  (1 < x -> clamp01 x = 1) /\
  clamp01 (clamp01 x) = clamp01 x.
Proof.
  unfold clamp01.
  repeat match goal with
  | |- context [Rlt_dec ?a ?b] => destruct (Rlt_dec a b)
  | |- context [Rgt_dec ?a ?b] => destruct (Rgt_dec a b)
  end; unfold Rgt in *; repeat split; intros; try lra.
Qed.


(** X20.  [clamp01] returns a value in [[0, 1]]: the input itself when it is
    in [[0, 1]], 0 below and 1 above; clamping twice changes nothing. *)
Theorem clamp01_range (x : R) :
  0 <= clamp01 x <= 1 /\
  (0 <= x <= 1 -> clamp01 x = x) /\
  (x < 0 -> clamp01 x = 0) /\
  (1 < x -> clamp01 x = 1) /\
  clamp01 (clamp01 x) = clamp01 x.
Proof. exact (clamp01_cases x). Qed.

Lemma clamp01_range_witness : 1 < 1.5 /\ clamp01 1.5 = 1.
Proof.
  assert (H : 1 < 1.5) by lra. split; [exact H|].
  destruct (clamp01_range 1.5) as (_ & _ & _ & H1 & _). exact (H1 H).
Defined.

Lemma invertMat_inverse_witness :
  det (primariesMatrix srgbRed srgbGreen srgbBlue) <> 0 /\
  (let v := matMulMV (primariesMatrix srgbRed srgbGreen srgbBlue) 1 2 3 in
   matMulMV (invertMat (primariesMatrix srgbRed srgbGreen srgbBlue)) (x v) (y v) (z v))
  = mkVector3 1 2 3.
Proof.
  split; [exact srgb_primaries_invertible|].
  exact (proj1 (invertMat_inverse _ 1 2 3 srgb_primaries_invertible)).
Defined.

Lemma invertMat_involutive_witness :
  det (primariesMatrix srgbRed srgbGreen srgbBlue) <> 0 /\
  invertMat (invertMat (primariesMatrix srgbRed srgbGreen srgbBlue))
  = primariesMatrix srgbRed srgbGreen srgbBlue.
Proof.
  split; [exact srgb_primaries_invertible|].
  exact (invertMat_involutive _ srgb_primaries_invertible).
Defined.

(** ** RGB matrices *)

(** The determinant of the forward matrix: that of the lifted primaries
    times the three scale factors of [calcMatrices], which are the white
    tristimulus in the basis of the lifted primaries. *)
Lemma det_calcMatrices (r g b : Chromaticity) (w : XyzColor) :
  det (primariesMatrix r g b) <> 0 ->
  let k := matMulMV (invertMat (primariesMatrix r g b)) (x w) (y w) (z w) in
  det (xyz (calcMatrices r g b w)) = det (primariesMatrix r g b) * (x k * y k * z k).
Proof.
  destruct r as [rx ry], g as [gx gy], b as [bx by_], w as [wx wy wz].
  unfold det, calcMatrices, primariesMatrix, lift, invertMat, matMulMV; simpl.
  intros Hdet. field. exact Hdet.
Qed.

(** X21.  In exact real arithmetic, when the lifted primaries are
    invertible and the white tristimulus has three nonzero coordinates in
    their basis, the two matrices of [calcMatrices] are inverses of each
    other.  (In the code's IEEE doubles, up to rounding only.) *)
Theorem calcMatrices_inverse (r g b : Chromaticity) (w : XyzColor) (a1 a2 a3 : R) :
  det (primariesMatrix r g b) <> 0 ->
  (let k := matMulMV (invertMat (primariesMatrix r g b)) (x w) (y w) (z w) in
   x k <> 0 /\ y k <> 0 /\ z k <> 0) ->
  let m := calcMatrices r g b w in
  (let v := matMulMV (xyz m) a1 a2 a3 in matMulMV (rgb m) (x v) (y v) (z v))
  = mkVector3 a1 a2 a3 /\
  (let v := matMulMV (rgb m) a1 a2 a3 in matMulMV (xyz m) (x v) (y v) (z v))
  = mkVector3 a1 a2 a3.
Proof.
  intros Hdet Hk. cbv zeta in Hk. destruct Hk as (Hx & Hy & Hz).
  assert (HM : det (xyz (calcMatrices r g b w)) <> 0).
  { rewrite det_calcMatrices by exact Hdet. cbv zeta.
    repeat apply Rmult_integral_contrapositive_currified; assumption. }
  cbv zeta.
  change (rgb (calcMatrices r g b w)) with (invertMat (xyz (calcMatrices r g b w))).
  exact (invertMat_cancel _ a1 a2 a3 HM).
Qed.

Lemma srgb_scale_factors :
  let k := matMulMV (invertMat (primariesMatrix srgbRed srgbGreen srgbBlue))
             (x (sdrWhitePoint (whitePoint srgb))) (y (sdrWhitePoint (whitePoint srgb)))
             (z (sdrWhitePoint (whitePoint srgb))) in
  x k <> 0 /\ y k <> 0 /\ z k <> 0.
Proof.
  cbv zeta. unfold matMulMV, invertMat, primariesMatrix, lift, sdrWhitePoint; simpl.
  repeat split; apply Rgt_not_eq; lra.
Qed.

Lemma calcMatrices_inverse_witness :
  let m := calcMatrices srgbRed srgbGreen srgbBlue (sdrWhitePoint (whitePoint srgb)) in
  (let v := matMulMV (xyz m) 1 0 0 in matMulMV (rgb m) (x v) (y v) (z v))
  = mkVector3 1 0 0.
Proof.
  exact (proj1 (calcMatrices_inverse srgbRed srgbGreen srgbBlue
                  (sdrWhitePoint (whitePoint srgb)) 1 0 0
                  srgb_primaries_invertible srgb_scale_factors)).
Defined.

(** The forward matrix is linear in the white tristimulus. *)
Lemma calcMatrices_scale (r g b : Chromaticity) (w : XyzColor) (l a1 a2 a3 : R) :
  let scaled := mkVector3 (x w * l) (y w * l) (z w * l) in
  let v := matMulMV (xyz (calcMatrices r g b w)) a1 a2 a3 in
  matMulMV (xyz (calcMatrices r g b scaled)) a1 a2 a3
  = mkVector3 (l * x v) (l * y v) (l * z v).
Proof.
  cbv zeta. unfold calcMatrices. cbn [xyz].
  generalize (invertMat (primariesMatrix r g b)).
  intros [i00 i01 i02 i10 i11 i12 i20 i21 i22].
  destruct r as [rx ry], g as [gx gy], b as [bx by_], w as [wx wy wz].
  unfold matMulMV, lift; simpl. f_equal; ring.
Qed.

(** X22.  In exact real arithmetic, for a profile built from invertible
    primaries, the tristimulus that [toXyz] returns in HDR mode is the one
    it returns in SDR mode times the luminance of the white point.  (In
    the code's IEEE doubles the two differ by rounding.) *)
Theorem hdr_scales_sdr (info : RgbProfileInfo) (color : RgbColor) :
  det (primariesMatrix (chromaticity (prim_r (primaries info)))
         (chromaticity (prim_g (primaries info)))
         (chromaticity (prim_b (primaries info)))) <> 0 ->
  let this := newRgbProfile info in
  let l := luminance (whitePoint info) in
  x (toXyz this color true) = l * x (toXyz this color false) /\
  y (toXyz this color true) = l * y (toXyz this color false) /\
  z (toXyz this color true) = l * z (toXyz this color false).
Proof.
  intros _. cbv zeta.
  unfold toXyz. cbn [newRgbProfile conversion serializable calcConversionInfo hdr sdr].
  unfold hdrWhitePoint.
  rewrite calcMatrices_scale. cbn [x y z]. auto.
Qed.

Lemma hdr_scales_sdr_witness :
  y (toXyz (newRgbProfile P3D65) (mkRgbColor 1 0.5 0) true)
  = 48 * y (toXyz (newRgbProfile P3D65) (mkRgbColor 1 0.5 0) false).
Proof.
  refine (proj1 (proj2 (hdr_scales_sdr P3D65 (mkRgbColor 1 0.5 0) _))).
  unfold det, primariesMatrix, lift; simpl. lra.
Defined.

(** ** Conversions through XYZ *)

Lemma applyInverse_unit (c : Curve) (v : R) :
  analytic c -> 0 <= v <= 1 -> 0 <= applyInverse c v <= 1.
Proof.
  destruct c as [|gamma|values]; simpl; intros Hc Hv; [lra| |contradiction].
  apply pow_range; [lra|]. apply Rdiv_lt_0_compat; lra.
Qed.

Lemma channel_roundtrip (c : Curve) (v : R) :
  analytic c -> 0 <= v <= 1 ->
  apply c (clamp01 (applyInverse c (clamp01 v))) = Some v.
Proof.
  intros Hc Hv.
  destruct (clamp01_cases v) as (_ & Hid & _). rewrite (Hid Hv).
  destruct (clamp01_cases (applyInverse c v)) as (_ & Hid' & _).
  rewrite (Hid' (applyInverse_unit c v Hc Hv)).
  apply apply_applyInverse_analytic; [assumption|lra].
Qed.

(** X23.  In exact real arithmetic, for a profile with identity or gamma
    curves, invertible primaries and an invertible forward matrix,
    converting a colour with components in [[0, 1]] to the profile itself
    with [to] returns the colour, in either mode and with [hdr] left out.
    (In the code's IEEE doubles the colour comes back up to rounding
    only.) *)
Theorem rgb_roundtrip (info : RgbProfileInfo) (color : RgbColor) (hdr_ : option bool) :
  let this := newRgbProfile info in
  analytic (trc (prim_r (primaries info))) ->
  analytic (trc (prim_g (primaries info))) ->
  analytic (trc (prim_b (primaries info))) ->
  det (primariesMatrix (chromaticity (prim_r (primaries info)))
         (chromaticity (prim_g (primaries info)))
         (chromaticity (prim_b (primaries info)))) <> 0 ->
  det (xyz (if hdrOr hdr_ then hdr (conversion this) else sdr (conversion this))) <> 0 ->
  0 <= r color <= 1 -> 0 <= g color <= 1 -> 0 <= b color <= 1 ->
  to this (target this) color hdr_
  = {| out_r := Some (r color); out_g := Some (g color); out_b := Some (b color) |}.
Proof.
  cbv zeta. intros Hr Hg Hb _ Hdet Hcr Hcg Hcb.
  unfold to, target, fromXyz, toXyz.
  set (m := if hdrOr hdr_ then hdr (conversion (newRgbProfile info))
            else sdr (conversion (newRgbProfile info))) in *.
  assert (Hinv : rgb m = invertMat (xyz m)) by (unfold m; destruct (hdrOr hdr_); reflexivity).
  rewrite Hinv.
  cbn [serializable newRgbProfile].
  set (r' := applyInverse (trc (prim_r (primaries info))) (clamp01 (r color))).
  set (g' := applyInverse (trc (prim_g (primaries info))) (clamp01 (g color))).
  set (b' := applyInverse (trc (prim_b (primaries info))) (clamp01 (b color))).
  destruct (invertMat_cancel (xyz m) r' g' b' Hdet) as [Hback _].
  cbv zeta in Hback. rewrite Hback.
  unfold r', g', b'. now rewrite !channel_roundtrip.
Qed.

Lemma srgb_sdr_invertible :
  det (xyz (sdr (conversion (newRgbProfile srgb)))) <> 0.
Proof.
  change (xyz (sdr (conversion (newRgbProfile srgb))))
    with (xyz (calcMatrices srgbRed srgbGreen srgbBlue (sdrWhitePoint (whitePoint srgb)))).
  rewrite det_calcMatrices by exact srgb_primaries_invertible.
  destruct srgb_scale_factors as (Hx & Hy & Hz).
  repeat apply Rmult_integral_contrapositive_currified;
    assumption || exact srgb_primaries_invertible.
Qed.

(** sRGB red converted to sRGB. *)
Lemma rgb_roundtrip_witness :
  det (xyz (sdr (conversion (newRgbProfile srgb)))) <> 0 /\
  to (newRgbProfile srgb) (target (newRgbProfile srgb)) (mkRgbColor 1 0 0) None
  = {| out_r := Some 1; out_g := Some 0; out_b := Some 0 |}.
Proof.
  split; [exact srgb_sdr_invertible|].
  apply (rgb_roundtrip srgb (mkRgbColor 1 0 0) None);
    first [ exact srgb_primaries_invertible | exact srgb_sdr_invertible | simpl; lra ].
Defined.

(** X24.  Out-of-range values are saturated.  [toXyz] gives the same
    result for a colour and for the colour with each component clamped to
    [[0, 1]].  With identity or gamma curves of positive exponent, every
    channel that [fromXyz] returns is defined and in [[0, 1]] as long as
    the product of the matrix and the input is a real number: the entries
    of the matrix and the input are finite and the product does not
    overflow (in the code's doubles an overflow or a matrix built from
    singular primaries gives [NaN] channels, which are outside this
    statement). *)
Theorem gamut_clamping (this : RgbProfile) (color : RgbColor) (xyz_ : XyzColor)
    (hdr_ : bool) :
  toXyz this color hdr_
  = toXyz this (mkRgbColor (clamp01 (r color)) (clamp01 (g color)) (clamp01 (b color))) hdr_ /\
  (analytic (trc (prim_r (primaries (serializable this)))) ->
   analytic (trc (prim_g (primaries (serializable this)))) ->
   analytic (trc (prim_b (primaries (serializable this)))) ->
   exists vr vg vb : R,
     fromXyz this xyz_ hdr_ = {| out_r := Some vr; out_g := Some vg; out_b := Some vb |} /\
     0 <= vr <= 1 /\ 0 <= vg <= 1 /\ 0 <= vb <= 1).
Proof.
  split.
  - unfold toXyz. cbn [r g b].
    destruct (clamp01_cases (r color)) as (_ & _ & _ & _ & ->).
    destruct (clamp01_cases (g color)) as (_ & _ & _ & _ & ->).
    destruct (clamp01_cases (b color)) as (_ & _ & _ & _ & ->).
    reflexivity.
  - intros Hr Hg Hb. unfold fromXyz.
    destruct (matMulMV _ _ _ _) as [lr lg lb].
    assert (Hch : forall c v, analytic c ->
              exists w, apply c (clamp01 v) = Some w /\ 0 <= w <= 1).
    { intros c v Hc. destruct (clamp01_cases v) as (Hv & _).
      destruct c as [|gamma|values]; simpl in *; [eauto| |contradiction].
      exists (pow (clamp01 v) gamma). split; [reflexivity|]. now apply pow_range. }
    destruct (Hch _ lr Hr) as (vr & -> & ?).
    destruct (Hch _ lg Hg) as (vg & -> & ?).
    destruct (Hch _ lb Hb) as (vb & -> & ?).
    exists vr, vg, vb. auto.
Qed.

Lemma gamut_clamping_witness :
  exists vr vg vb : R,
    fromXyz (newRgbProfile srgb) (mkVector3 2 2 2) false
    = {| out_r := Some vr; out_g := Some vg; out_b := Some vb |} /\
    0 <= vr <= 1 /\ 0 <= vg <= 1 /\ 0 <= vb <= 1.
Proof.
  apply (gamut_clamping (newRgbProfile srgb) (mkRgbColor 0 0 0) (mkVector3 2 2 2) false);
    simpl; lra.
Defined.

End RgbFacts.

(* ===================================================================== *)
(** * Properties of the ICC-derived RGB profile                            *)
(* ===================================================================== *)

Module IccProfileFacts.
Import Js Datatype Header Tag Math Curve IccProfile Notions Inputs.
Import DatatypeFacts CurveFacts RgbFacts.
#[local] Open Scope Z_scope.

(** ** What the constructor throws *)

Lemma firstValue_throws (t : option Tag) (e : JsError) :
  firstValue t = inl e -> exists property, e = TypeError property.
Proof.
  destruct t as [[s o z [[vs|vs|c ch]|]]|]; simpl; intros H; inversion H; eauto.
Qed.

Lemma column_throws (v : JsValue) (e : JsError) :
  column v = inl e -> exists property, e = TypeError property.
Proof. destruct v; simpl; intros H; inversion H; eauto. Qed.

Lemma curveOfTag_throws (t : option Tag) (e : JsError) :
  curveOfTag t = inl e -> exists property, e = TypeError property.
Proof.
  destruct t as [[s o z [[[|v [|v' vs]]|vs|c ch]|]]|]; simpl;
    intros H; inversion H; eauto.
Qed.

(** Whatever the constructor throws is the [TypeError] of a property read
    on [undefined]. *)
Lemma newIccRgbProfile_throws (icc : IccProfileInfo) (e : JsError) :
  newIccRgbProfile icc = inl e -> exists property, e = TypeError property.
Proof.
  unfold newIccRgbProfile.
  repeat match goal with
  | |- Js.bind ?c _ = inl _ -> _ =>
      let E := fresh "E" in
      destruct c eqn:E; simpl;
      [ intros H; inversion H; subst;
        first [ eapply firstValue_throws; eassumption
              | eapply column_throws; eassumption
              | eapply curveOfTag_throws; eassumption ] | ]
  end.
  intros H. inversion H.
Qed.

(** With one of the six tags absent the constructor throws. *)
Lemma newIccRgbProfile_missing_tag (icc : IccProfileInfo) (tag : string) :
  tag ∈ requiredTags -> tags icc !! tag = None ->
  exists e, newIccRgbProfile icc = inl e.
Proof.
  intros Hin Hnone. unfold requiredTags in Hin.
  unfold newIccRgbProfile.
  repeat match goal with
  | |- exists e, Js.bind ?c _ = inl e =>
      let E := fresh "E" in
      destruct c eqn:E; simpl; [eauto|]
  end.
  exfalso.
  repeat (apply elem_of_cons in Hin as [->|Hin]);
    [ .. | apply elem_of_nil in Hin; exact Hin ];
    rewrite Hnone in *; simpl in *; discriminate.
Qed.

(** C3, as the code has it.  For a profile whose header colour space is
    RGB and whose tag table lacks one of [rXYZ], [gXYZ], [bXYZ], [rTRC],
    [gTRC], [bTRC], [profileOf] fails with the [TypeError] of a property
    read on [undefined] (the null-dereference); the error names the
    property that was read, not the tag. *)
Theorem profileOf_missing_tag (icc : IccProfileInfo) (tag : string) :
  profileSpace (header icc) = ColorSpace_RGB ->
  tag ∈ requiredTags -> tags icc !! tag = None ->
  exists property : string, profileOf icc = inl (TypeError property).
Proof.
  intros Hrgb Hin Hnone. unfold profileOf. rewrite Hrgb. simpl.
  destruct (newIccRgbProfile_missing_tag icc tag Hin Hnone) as [e He].
  destruct (newIccRgbProfile_throws icc e He) as [property ->]. eauto.
Qed.

Lemma profileOf_missing_tag_witness :
  profileSpace (header noTagsInfo) = ColorSpace_RGB /\
  "gTRC" ∈ requiredTags /\ tags noTagsInfo !! "gTRC" = None /\
  exists property : string, profileOf noTagsInfo = inl (TypeError property).
Proof.
  assert (H1 : profileSpace (header noTagsInfo) = ColorSpace_RGB) by reflexivity.
  assert (H2 : "gTRC" ∈ requiredTags) by (unfold requiredTags; set_solver).
  assert (H3 : tags noTagsInfo !! "gTRC" = None) by reflexivity.
  split; [exact H1|]. split; [exact H2|]. split; [exact H3|].
  exact (profileOf_missing_tag noTagsInfo "gTRC" H1 H2 H3).
Defined.

(** C3, counterexample.  [rgbNoTags] parses to a profile of colour space
    RGB with no [rXYZ] tag; [profileOf] fails on it with the [TypeError]
    of reading [data] on [undefined], which is no missing-tag error. *)
Lemma profileOf_missing_tag_counterexample :
  exists icc : IccProfileInfo,
    parseIcc rgbNoTags 0 = inr icc /\
    profileSpace (header icc) = ColorSpace_RGB /\
    tags icc !! "rXYZ" = None /\
    profileOf icc = inl (TypeError "data") /\
    ~ missingTagError (TypeError "data") "rXYZ".
Proof.
  eexists. split; [vm_compute; reflexivity|].
  split; [vm_compute; reflexivity|].
  split; [vm_compute; reflexivity|].
  split; [vm_compute; reflexivity|].
  intros (message & H & _). discriminate.
Qed.

(** A colour space other than RGB is reported by name. *)
Example profileOf_unsupported :
  exists icc : IccProfileInfo,
    parseIcc cmykNoTags 0 = inr icc /\
    profileOf icc = inl (Error "Unsupported color space: CMYK").
Proof.
  eexists. split; [vm_compute; reflexivity|]. vm_compute. reflexivity.
Qed.

(** A buffer that ends before byte 64 is not parsed: the 64-bit read of
    the device attributes throws. *)
Example parseIcc_short :
  parseIcc (replicate 16 x00 ++ [x43; x4d; x59; x4b]) 0 = inl TypeErrorBigInt.
Proof. vm_compute. reflexivity. Qed.

(** The two halves of a sample, put together, are the sample over 256. *)
Lemma u8Fixed8_value (raw : Z) :
  0 <= raw < 2 ^ 16 ->
  (IZR (shr (and raw 0xFF00) 8) + IZR (and raw 0x00FF) / 256 = IZR raw / 256)%R.
Proof.
  intros Hraw.
  change 0xFF00 with (Z.shiftl (Z.ones 8) 8).
  rewrite (high_part raw 8 8) by lia.
  rewrite and_mask8 by lia.
  rewrite (Z.div_mod raw (2 ^ 8)) at 3 by lia.
  rewrite plus_IZR, mult_IZR. change (IZR (2 ^ 8)) with 256%R. field.
Qed.

Lemma curveOf_single (raw : Z) :
  0 <= raw < 2 ^ 16 -> curveOf [raw] = Gamma (IZR raw / 256).
Proof. intros H. simpl. f_equal. now apply u8Fixed8_value. Qed.

#[local] Open Scope R_scope.

(** ** Conversions *)

(** The curves of a constructed profile are those built from the tags
    [rTRC], [gTRC] and [bTRC], in this order. *)
Lemma newIccRgbProfile_curves (icc : IccProfileInfo) (this : IccRgbProfile) :
  newIccRgbProfile icc = inr (Some this) ->
  curveOfTag (tags icc !! "rTRC") = inr (Some (trc this).1.1) /\
  curveOfTag (tags icc !! "gTRC") = inr (Some (trc this).1.2) /\
  curveOfTag (tags icc !! "bTRC") = inr (Some (trc this).2).
Proof.
  unfold newIccRgbProfile.
  repeat match goal with
  | |- Js.bind ?c _ = inr _ -> _ =>
      let E := fresh "E" in destruct c eqn:E; simpl; [discriminate|]
  end.
  repeat match goal with
  | |- context [match ?o with Some _ => _ | None => _ end] => destruct o; try discriminate
  end.
  intros [= <-]. simpl. auto.
Qed.

(** C4.  [fromXyz] applies the inverse of the red curve, the first entry
    [trc[0]] of the profile's curves, to all three components of the
    product with the inverse matrix; the green and blue curves do not
    enter the result, which is unchanged when they are replaced by any
    other curves.  In a profile that [profileOf] constructs, the first
    entry is the curve built from the [rTRC] tag, the second and the
    third those built from [gTRC] and [bTRC]: the green and the blue
    output are computed with the curve of [rTRC]. *)
Theorem fromXyz_red_curve (this : IccRgbProfile) (xyz : Rgb.XyzColor) (hdr : bool) :
  let v := matMulMV (rgbMatrix this) (x xyz) (y xyz) (z xyz) in
  fromXyz this xyz hdr
  = [ applyInverse (trc this).1.1 (x v);
      applyInverse (trc this).1.1 (y v);
      applyInverse (trc this).1.1 (z v) ] /\
  (forall gTRC bTRC : Curve,
     fromXyz {| serializable := serializable this;
                xyzMatrix := xyzMatrix this;
                rgbMatrix := rgbMatrix this;
                trc := ((trc this).1.1, gTRC, bTRC) |} xyz hdr
     = fromXyz this xyz hdr) /\
  (forall icc : IccProfileInfo,
     profileOf icc = inr (Some this) ->
     curveOfTag (tags icc !! "rTRC") = inr (Some (trc this).1.1) /\
     curveOfTag (tags icc !! "gTRC") = inr (Some (trc this).1.2) /\
     curveOfTag (tags icc !! "bTRC") = inr (Some (trc this).2)).
Proof.
  cbv zeta. split; [|split].
  - unfold fromXyz, trc0.
    destruct (matMulMV (rgbMatrix this) (x xyz) (y xyz) (z xyz)) as [r g b].
    reflexivity.
  - intros gTRC bTRC. unfold fromXyz, trc0. cbn [rgbMatrix trc fst snd].
    destruct (matMulMV (rgbMatrix this) (x xyz) (y xyz) (z xyz)) as [r g b].
    reflexivity.
  - intros icc Hp. unfold profileOf in Hp.
    destruct (String.eqb _ _); [|discriminate].
    exact (newIccRgbProfile_curves icc this Hp).
Qed.

(** The inverse of gamma 2 at 0.25 is 0.5. *)
Lemma pow_quarter_half : pow 0.25 (1 / 2) = 0.5.
Proof.
  rewrite pow_pos by lra.
  replace 0.25 with (Rpower 0.5 2).
  - rewrite Rpower_mult. replace (2 * (1 / 2)) with 1 by lra. apply Rpower_1. lra.
  - replace 2 with (1 + 1) by lra. rewrite Rpower_plus, Rpower_1 by lra. lra.
Qed.

Lemma redGammaProfile_constructed : profileOf redGammaIcc = inr (Some redGammaProfile).
Proof. reflexivity. Qed.

Lemma redGammaProfile_curves : trc redGammaProfile = (Gamma 2, Identity, Identity).
Proof.
  unfold redGammaProfile. cbv zeta. cbn [trc]. unfold curveOf at 2 3.
  do 2 f_equal. rewrite (curveOf_single 0x0200) by lia. f_equal. lra.
Qed.

Lemma redGammaProfile_rgbMatrix :
  rgbMatrix redGammaProfile = mkMatrix3x3 1 0 0 0 1 0 0 0 1.
Proof.
  unfold redGammaProfile. cbv zeta. cbn [rgbMatrix].
  unfold invertMat, xyzMatrixOf, Q2R; simpl. f_equal; field.
Qed.

(** C4 on a constructed profile whose red curve is gamma 2 and whose
    green and blue curves are the identity: at the linear value 0.25 the
    green and blue outputs are 0.5, the inverse of the red curve; the
    green curve's own inverse would give 0.25. *)
Lemma fromXyz_red_curve_witness :
  profileOf redGammaIcc = inr (Some redGammaProfile) /\
  curveOfTag (tags redGammaIcc !! "rTRC") = inr (Some (Gamma 2)) /\
  curveOfTag (tags redGammaIcc !! "gTRC") = inr (Some Identity) /\
  fromXyz redGammaProfile (mkVector3 0.25 0.25 0.25) false = [0.5; 0.5; 0.5] /\
  applyInverse (trc redGammaProfile).1.2 0.25 = 0.25.
Proof.
  destruct (fromXyz_red_curve redGammaProfile (mkVector3 0.25 0.25 0.25) false)
    as (Hred & _ & Hcurves).
  destruct (Hcurves redGammaIcc redGammaProfile_constructed) as (Hr & Hg & _).
  rewrite redGammaProfile_curves in Hr, Hg, Hred. cbn [fst snd] in Hr, Hg, Hred.
  split; [exact redGammaProfile_constructed|].
  split; [exact Hr|]. split; [exact Hg|]. split.
  - rewrite Hred. cbv zeta. rewrite redGammaProfile_rgbMatrix.
    unfold matMulMV; cbn [x y z m00 m01 m02 m10 m11 m12 m20 m21 m22 applyInverse].
    replace (1 * 0.25 + 0 * 0.25 + 0 * 0.25) with 0.25 by lra.
    replace (0 * 0.25 + 1 * 0.25 + 0 * 0.25) with 0.25 by lra.
    replace (0 * 0.25 + 0 * 0.25 + 1 * 0.25) with 0.25 by lra.
    now rewrite pow_quarter_half.
  - rewrite redGammaProfile_curves. reflexivity.
Defined.

(** C10.  [toXyz] and [fromXyz] of an ICC-derived profile give the same
    result with [hdr] true and false: the profile has one matrix pair.
    The literal sRGB profile, in contrast, sends white to different
    tristimuli in the two modes. *)
Theorem icc_profile_ignores_hdr :
  (forall (this : IccRgbProfile) (color : list R) (xyz : Rgb.XyzColor),
     toXyz this color true = toXyz this color false /\
     fromXyz this xyz true = fromXyz this xyz false) /\
  Rgb.toXyz (Rgb.newRgbProfile Rgb.srgb) (Rgb.mkRgbColor 1 1 1) true
  <> Rgb.toXyz (Rgb.newRgbProfile Rgb.srgb) (Rgb.mkRgbColor 1 1 1) false.
Proof.
  split.
  - intros this color xyz. split; reflexivity.
  - rewrite !RgbFacts.srgb_white_toXyz. intros H.
    apply (f_equal y) in H. unfold Rgb.hdrWhitePoint, Rgb.sdrWhitePoint in H.
    simpl in H. lra.
Qed.

(* --------------------------------------------------------------------- *)
(** ** Further properties of the ICC-derived RGB profile                   *)
(* --------------------------------------------------------------------- *)

#[local] Open Scope Z_scope.

(** *** Curves of a profile *)

Lemma mapped_ascending (values : list Z) :
  StronglySorted Z.lt values -> ascending (map (fun v => (IZR v / 65535)%R) values).
Proof.
  unfold ascending. induction 1 as [|v values Hs IH Hall]; simpl; constructor.
  - exact IH.
  - rewrite Forall_map. eapply Forall_impl; [exact Hall|].
    intros w Hw. simpl. apply IZR_lt in Hw. lra.
Qed.

(** X29.  [curveOf] on the samples of a ["curv"] payload (16-bit unsigned
    values): no sample gives the identity curve; one sample [raw] gives
    the gamma curve of exponent [raw / 256] (the sample read as a
    u8Fixed8 number); two samples or more give a table of the same
    length that holds each sample divided by 65535, so every entry is in
    [[0, 1]], and strictly ascending samples give a strictly ascending
    table. *)
Theorem curveOf_cases (values : list Z) :
  Forall (fun v => 0 <= v < 2 ^ 16) values ->
  match values with
  | [] => curveOf values = Identity
  | [raw] => curveOf values = Gamma (IZR raw / 256)
  | _ =>
      exists mapped : list R,
        curveOf values = Lut mapped /\
        length mapped = length values /\
        (forall (i : nat) (v : Z), values !! i = Some v ->
           mapped !! i = Some (IZR v / 65535)%R) /\
        Forall (fun v => (0 <= v <= 1)%R) mapped /\
        (StronglySorted Z.lt values -> ascending mapped)
  end.
Proof.
  intros Hall. destruct values as [|raw [|v' values]].
  - reflexivity.
  - simpl. f_equal. apply u8Fixed8_value. now inversion Hall.
  - exists (map (fun v => (IZR v / 65535)%R) (raw :: v' :: values)).
    split; [reflexivity|]. split; [now rewrite length_map|]. split; [|split].
    + intros i v Hv. now rewrite list_lookup_fmap, Hv.
    + rewrite Forall_map. eapply Forall_impl; [exact Hall|].
      intros v [Hv0 Hv1]. simpl.
      apply IZR_le in Hv0. assert (Hv2 : v <= 65535) by lia. apply IZR_le in Hv2.
      split; [apply Rmult_le_pos; lra|]. lra.
    + apply mapped_ascending.
Qed.

(** The sample 0x0233 is gamma 563/256, about 2.2. *)
Lemma curveOf_cases_witness :
  curveOf [0x0233] = Gamma (IZR 0x0233 / 256).
Proof.
  apply (curveOf_cases [0x0233]). repeat constructor; lia.
Defined.

(** *** Conversions through XYZ *)

(** What the constructor returns keeps the parsed profile, and its second
    matrix is [invertMat] of the first. *)
Lemma newIccRgbProfile_returns (icc : IccProfileInfo) (this : IccRgbProfile) :
  newIccRgbProfile icc = inr (Some this) ->
  serializable this = icc /\ rgbMatrix this = invertMat (xyzMatrix this).
Proof.
  unfold newIccRgbProfile.
  repeat match goal with
  | |- Js.bind ?c _ = inr _ -> _ => destruct c; simpl; [discriminate|]
  end.
  repeat match goal with
  | |- context [match ?o with Some _ => _ | None => _ end] => destruct o; try discriminate
  end.
  intros [= <-]. split; reflexivity.
Qed.

Lemma applyInverse_apply_analytic (c : Curve) (v : R) :
  analytic c -> (0 <= v)%R ->
  apply c v = Some (match c with Gamma gamma => pow v gamma | _ => v end) /\
  applyInverse c (match c with Gamma gamma => pow v gamma | _ => v end) = v.
Proof.
  destruct c as [|gamma|values]; simpl; intros Hc Hv; [auto| |contradiction].
  split; [reflexivity|]. now apply pow_inverse.
Qed.

(** X30.  In exact real arithmetic, for a profile that [profileOf]
    returns, whose colorant matrix has a nonzero determinant and whose
    three curves are one and the same identity or gamma curve: converting
    a colour with non-negative components to XYZ and back returns the
    colour, whatever the two [_hdr] arguments.  (In the code's IEEE
    doubles the colour comes back up to rounding only.) *)
Theorem icc_roundtrip (icc : IccProfileInfo) (this : IccRgbProfile) (curve : Curve)
    (r g b : R) (_hdr _hdr' : bool) :
  profileOf icc = inr (Some this) ->
  det (xyzMatrix this) <> 0%R ->
  trc this = (curve, curve, curve) -> analytic curve ->
  (0 <= r)%R -> (0 <= g)%R -> (0 <= b)%R ->
  (fun xyz => fromXyz this xyz _hdr') <$> toXyz this [r; g; b] _hdr = Some [r; g; b].
Proof.
  intros Hp Hdet Htrc Hc Hr Hg Hb.
  assert (Hinv : rgbMatrix this = invertMat (xyzMatrix this)).
  { unfold profileOf in Hp. destruct (String.eqb _ _); [|discriminate].
    now apply newIccRgbProfile_returns in Hp. }
  unfold toXyz, fromXyz, trc0, trc1, trc2. simpl. rewrite Htrc, Hinv. cbn [fst snd].
  destruct (applyInverse_apply_analytic _ r Hc Hr) as [-> Hr'].
  destruct (applyInverse_apply_analytic _ g Hc Hg) as [-> Hg'].
  destruct (applyInverse_apply_analytic _ b Hc Hb) as [-> Hb'].
  simpl.
  match goal with
  | |- context [matMulMV (invertMat ?m) (x (matMulMV _ ?a1 ?a2 ?a3)) _ _] =>
      destruct (invertMat_cancel m a1 a2 a3 Hdet) as [Hback _]
  end.
  cbv zeta in Hback. rewrite Hback. now rewrite Hr', Hg', Hb'.
Qed.

(** The unit profile with gamma 2, on the colour (1, 0.5, 0). *)
Lemma icc_roundtrip_witness :
  exists this : IccRgbProfile,
    profileOf unitIcc = inr (Some this) /\
    (fun xyz => fromXyz this xyz false) <$> toXyz this [1; 0.5; 0]%R false
    = Some [1; 0.5; 0]%R.
Proof.
  eexists. split; [reflexivity|].
  apply (icc_roundtrip unitIcc _ (curveOf [0x0200]));
    [reflexivity| |reflexivity| |lra|lra|lra].
  - unfold det, xyzMatrixOf, Q2R; simpl. lra.
  - simpl. izr_compute. lra.
Defined.

End IccProfileFacts.
